(** * Smart Dictation Buddy: the review scheduler and the account store

    A shallow embedding of the two data transformations of the
    application: the spaced-repetition update of [handleQuizComplete]
    (src/App.tsx) with the due-word query [getDueWords]
    (src/components/SetupScreen.tsx), and the account store
    [StorageService] (src/services/storageService.ts).

    Conventions of the embedding.
    - A JavaScript string (well formed: no lone surrogate) is a Rocq
      [string] holding its UTF-8 bytes.  [trim] removes the Unicode white space of ECMAScript; [toLowerCase],
      which depends on the Unicode tables of the engine, is a parameter
      ([JsString.CaseFolding]), and every statement about names or words
      up to case holds for each such function.
    - The integer-valued numbers of the program (time stamps, review
      intervals, proficiency levels, counters) are [Z].  The one place
      where the program leaves the integers, the score
      [Math.round((correctCount / results.length) * 100)], is computed
      on IEEE 754 binary64 values ([spec_float]).
    - An optional property ([lastReviewed?: number]) is an [option].
    - A [WordLibrary] object is the list of its own properties in
      enumeration order, each a category name with its array of words.
    - [localStorage] is a finite map from keys to stored documents; a
      document is the value that [JSON.parse] gives back.
    - [Date.now()] is an argument of the operation that reads the clock.
    - The state updater that [handleQuizComplete] hands to [setLibrary]
      runs at the next render, after the handler has built the test
      record: the handler returns the library and the history as that
      render leaves them. *)

From Stdlib Require Import ZArith String Ascii List Bool Lia.
From Stdlib Require Import Floats.SpecFloat.
From stdpp Require Import base option list gmap strings pretty.

Local Open Scope string_scope.
Local Open Scope list_scope.
Local Open Scope Z_scope.

(** ** JavaScript strings

    A string of the program is held as the bytes of its UTF-8 encoding,
    which is how the texts of the source ("苹果") are written in this
    file; two strings are equal when their bytes are. *)

Module JsString.

Definition byte (a : ascii) : N := N_of_ascii a.

Definition in_range (lo hi : N) (a : ascii) : bool :=
  ((lo <=? byte a) && (byte a <=? hi))%N.

Definition is_byte (n : N) (a : ascii) : bool := in_range n n a.

(** The white space that [String.prototype.trim] removes: the code
    points of WhiteSpace and LineTerminator of ECMAScript, by the length
    of their encoding.  One byte: TAB, LF, VT, FF, CR and SPACE. *)
Definition is_space1 (a : ascii) : bool :=
  in_range 0x09 0x0D a || is_byte 0x20 a.

(** Two bytes: U+00A0, the no-break space. *)
Definition is_space2 (a b : ascii) : bool :=
  is_byte 0xC2 a && is_byte 0xA0 b.

(** Three bytes: U+1680; U+2000 to U+200A, U+2028, U+2029 and U+202F;
    U+205F; U+3000; U+FEFF. *)
Definition is_space3 (a b c : ascii) : bool :=
  is_byte 0xE1 a && is_byte 0x9A b && is_byte 0x80 c
  || is_byte 0xE2 a && is_byte 0x80 b
     && (in_range 0x80 0x8A c || in_range 0xA8 0xA9 c || is_byte 0xAF c)
  || is_byte 0xE2 a && is_byte 0x81 b && is_byte 0x9F c
  || is_byte 0xE3 a && is_byte 0x80 b && is_byte 0x80 c
  || is_byte 0xEF a && is_byte 0xBB b && is_byte 0xBF c.

Section Strip.

(** [from_end]: the bytes are read from the end of the string, the last
    byte of a code point first. *)
Variable from_end : bool.

Definition space2 (a b : ascii) : bool :=
  if from_end then is_space2 b a else is_space2 a b.

Definition space3 (a b c : ascii) : bool :=
  if from_end then is_space3 c b a else is_space3 a b c.

(** The number of bytes of the white space the list starts with, 0 when
    it starts with none. *)
Definition leading_space (l : list ascii) : nat :=
  match l with
  | [] => 0
  | a :: l1 =>
      if is_space1 a then 1
      else match l1 with
           | b :: l2 =>
               if space2 a b then 2
               else match l2 with
                    | c :: _ => if space3 a b c then 3 else 0
                    | [] => 0
                    end
           | [] => 0
           end
  end%nat.

(** The list without the white space it starts with. *)
Fixpoint strip (l : list ascii) : list ascii :=
  match l with
  | [] => []
  | a :: l1 =>
      if is_space1 a then strip l1
      else match l1 with
           | b :: l2 =>
               if space2 a b then strip l2
               else match l2 with
                    | c :: l3 => if space3 a b c then strip l3 else l
                    | [] => l
                    end
           | [] => l
           end
  end.

End Strip.

Definition trimStart (s : string) : string :=
  string_of_list_ascii (strip false (list_ascii_of_string s)).

Definition trimEnd (s : string) : string :=
  string_of_list_ascii
    (reverse (strip true (reverse (list_ascii_of_string s)))).

Definition trim (s : string) : string := trimEnd (trimStart s).

(** Lower-casing of the letters A to Z, the other bytes kept: what
    [toLowerCase] does on ASCII text. *)
Definition is_upper (a : ascii) : bool := in_range 0x41 0x5A a.

Definition lower_char (a : ascii) : ascii :=
  if is_upper a then ascii_of_N (byte a + 0x20) else a.

Fixpoint ascii_lower (s : string) : string :=
  match s with
  | EmptyString => EmptyString
  | String a s' => String (lower_char a) (ascii_lower s')
  end.

Fixpoint is_ascii (s : string) : bool :=
  match s with
  | EmptyString => true
  | String a s' => in_range 0x00 0x7F a && is_ascii s'
  end.

(** [String.prototype.toLowerCase] follows the case mappings of the
    Unicode tables of the engine, which are no part of the source.  The
    function is a parameter of the development, with two of its
    properties: on ASCII text it lower-cases the letters A to Z, and it
    commutes with [trim] (white space has no case, and no letter maps to
    or from white space). *)
Class CaseFolding := {
  toLowerCase : string → string;
  toLowerCase_ascii s : is_ascii s = true → toLowerCase s = ascii_lower s;
  toLowerCase_trim s : toLowerCase (trim s) = trim (toLowerCase s)
}.

(** [a === b] on strings. *)
Definition eqb (a b : string) : bool := bool_decide (a = b).

(** Truthiness of a string: every string but the empty one. *)
Definition truthy (s : string) : bool := negb (eqb s EmptyString).

(** [s || d]. *)
Definition or_default (s d : string) : string := if truthy s then s else d.

(** [n.toString()] for an integer [n]. *)
Definition ofZ (n : Z) : string := pretty n.

End JsString.

(** ** Data model (src/types.ts)

    Each interface is a record in a module of its name, so that the
    properties keep the names they have in the source. *)

Module WordPair.
Record t := mk {
  id : string;
  english : string;
  chinese : string;
  category : option string;
  lastReviewed : option Z;
  reviewInterval : option Z;
  proficiency : option Z
}.
End WordPair.

(** The own properties of a [WordLibrary] object, in enumeration order. *)
Abbreviation WordLibrary := (list (string * list WordPair.t)).

Module QuizResult.
Record t := mk {
  wordId : string;
  isCorrect : bool;
  userAnswer : string;
  correctAnswer : string;
  timestamp : Z
}.
End QuizResult.

Module WrongWord.
Record t := mk {
  english : string;
  chinese : string
}.
End WrongWord.

Module TestRecord.
Record t := mk {
  id : string;
  date : Z;
  score : spec_float;
  total : Z;
  wrongWords : list WrongWord.t
}.
End TestRecord.

Module User.
Record t := mk {
  id : string;
  username : string;
  password : option string;
  createdAt : Z;
  isAdmin : bool
}.
End User.

(** The object [{ library, history }] kept for each user. *)
Module UserData.
Record t := mk {
  library : WordLibrary;
  history : list TestRecord.t
}.
End UserData.

(** ** JavaScript numbers *)

Module JsNumber.

Definition prec : Z := 53.
Definition emax : Z := 1024.

(** The binary64 value of an integer (exact below [2^53]). *)
Definition ofZ (n : Z) : spec_float :=
  match n with
  | Z0 => S754_zero false
  | Zpos p => binary_normalize prec emax (Zpos p) 0 false
  | Zneg p => binary_normalize prec emax (Zneg p) 0 true
  end.

Definition div (x y : spec_float) : spec_float := SFdiv prec emax x y.
Definition mul (x y : spec_float) : spec_float := SFmul prec emax x y.

(** [Math.round(x)]: the integer closest to [x], ties towards
    [+Infinity]; zeros, infinities and [NaN] are returned as they are,
    and a result of zero keeps the sign of [x]. *)
Definition round_integer (s : bool) (m : positive) (e : Z) : Z :=
  let sm := if s then Zneg m else Zpos m in
  if 0 <=? e then sm * 2 ^ e
  else (2 * sm + 2 ^ (- e)) / 2 ^ (- e + 1).

Definition round (x : spec_float) : spec_float :=
  match x with
  | S754_finite s m e =>
      let n := round_integer s m e in
      if n =? 0 then S754_zero s else ofZ n
  | _ => x
  end.

#[global] Instance spec_float_eq_dec : EqDecision spec_float.
Proof. solve_decision. Defined.

(** [n || 0] for an optional integer property. *)
Definition or_zero (n : option Z) : Z := default 0 n.

(** [!n] for an optional integer property: [undefined] and [0] are
    falsy. *)
Definition falsy (n : option Z) : bool :=
  match n with
  | None => true
  | Some v => v =? 0
  end.

End JsNumber.

(** ** Review scheduler (src/App.tsx, src/components/SetupScreen.tsx) *)

Module Scheduler.

(** The updated copy written to [newLibrary[cat][idx]]. *)
Definition update_word (now : Z) (correct : bool) (word : WordPair.t)
    : WordPair.t :=
  let currentInterval := JsNumber.or_zero (WordPair.reviewInterval word) in
  let newInterval :=
    if correct then (if currentInterval =? 0 then 1 else currentInterval * 2)
    else 0 in
  {| WordPair.id := WordPair.id word;
     WordPair.english := WordPair.english word;
     WordPair.chinese := WordPair.chinese word;
     WordPair.category := WordPair.category word;
     WordPair.lastReviewed := Some now;
     WordPair.reviewInterval := Some newInterval;
     WordPair.proficiency :=
       Some (if correct
             then Z.min (JsNumber.or_zero (WordPair.proficiency word) + 1) 5
             else Z.max (JsNumber.or_zero (WordPair.proficiency word) - 1) 0) |}.

(** [arr.findIndex(w => w.id === wid)], with [None] for [-1]. *)
Definition findIndex (wid : string) (ws : list WordPair.t) : option nat :=
  fst <$> list_find (fun w => WordPair.id w = wid) ws.

(** The body of the [for (const cat in newLibrary)] loop for one
    category. *)
Definition update_category (now : Z) (res : QuizResult.t)
    (ws : list WordPair.t) : list WordPair.t :=
  match findIndex (QuizResult.wordId res) ws with
  | Some idx =>
      match ws !! idx with
      | Some word =>
          <[idx := update_word now (QuizResult.isCorrect res) word]> ws
      | None => ws
      end
  | None => ws
  end.

(** The library part of one [results.forEach] step: the loop over the
    categories has no [break], every category is visited. *)
Definition process_result (now : Z) (lib : WordLibrary) (res : QuizResult.t)
    : WordLibrary :=
  (fun entry => (fst entry, update_category now res (snd entry))) <$> lib.

Definition applyResults (now : Z) (lib : WordLibrary)
    (results : list QuizResult.t) : WordLibrary :=
  fold_left (process_result now) results lib.

(** The two locals of [handleQuizComplete]: the counter
    [let correctCount = 0] and the array [const wrongWords = []]. *)
Module Locals.
Record t := mk {
  correctCount : Z;
  wrongWords : list WrongWord.t
}.
End Locals.

Definition declared : Locals.t :=
  {| Locals.correctCount := 0; Locals.wrongWords := [] |}.

(** What one step of [results.forEach] does to the locals. *)
Definition tally (l : Locals.t) (res : QuizResult.t) : Locals.t :=
  if QuizResult.isCorrect res
  then {| Locals.correctCount := Locals.correctCount l + 1;
          Locals.wrongWords := Locals.wrongWords l |}
  else {| Locals.correctCount := Locals.correctCount l;
          Locals.wrongWords :=
            Locals.wrongWords l
            ++ [ {| WrongWord.english := QuizResult.correctAnswer res;
                    WrongWord.chinese :=
                      JsString.or_default (QuizResult.userAnswer res)
                        "Empty" |} ] |}.

(** The updater handed to [setLibrary]: its [results.forEach] loop, the
    only code that writes the locals, fills them and the copy of the
    library, which it returns. *)
Definition updater (now : Z) (results : list QuizResult.t) (l : Locals.t)
    (prevLibrary : WordLibrary) : Locals.t * WordLibrary :=
  (fold_left tally results l, applyResults now prevLibrary results).

(** The counter and the array once the updater has run, in closed
    form. *)
Definition correctCount (results : list QuizResult.t) : Z :=
  Z.of_nat (length (filter (fun r => QuizResult.isCorrect r = true) results)).

Definition collect_wrongWords (results : list QuizResult.t)
    : list WrongWord.t :=
  map (fun r =>
         {| WrongWord.english := QuizResult.correctAnswer r;
            WrongWord.chinese :=
              JsString.or_default (QuizResult.userAnswer r) "Empty" |})
      (filter (fun r => QuizResult.isCorrect r = false) results).

(** [Math.round((correctCount / results.length) * 100)]. *)
Definition percentage (count len : Z) : spec_float :=
  JsNumber.round
    (JsNumber.mul (JsNumber.div (JsNumber.ofZ count) (JsNumber.ofZ len))
                  (JsNumber.ofZ 100)).

(** The record, as the history holds it after the render.  The handler
    first calls [setLastResults(results)], which schedules a render;
    [setLibrary(updater)] then puts the updater in the queue of that
    render and returns, and the handler goes on to the record literal:
    the score, a number, is computed from the counter as it was declared.
    The updater runs when the render starts; [wrongWords] is the array
    of the handler itself, not a copy, so the record shows what the
    updater has pushed. *)
Definition make_record (now now_id : Z) (results : list QuizResult.t)
    : TestRecord.t :=
  let in_handler := declared in
  let after_render := fold_left tally results declared in
  {| TestRecord.id := JsString.ofZ now_id;
     TestRecord.date := now;
     TestRecord.score :=
       percentage (Locals.correctCount in_handler)
                  (Z.of_nat (length results));
     TestRecord.total := Z.of_nat (length results);
     TestRecord.wrongWords := Locals.wrongWords after_render |}.

(** [handleQuizComplete]: [now] is the clock reading at the top of the
    handler and [now_id] the one taken for the id of the record.  The
    result is the library and the history after the render that the
    handler has scheduled. *)
Definition handleQuizComplete (now now_id : Z) (lib : WordLibrary)
    (history : list TestRecord.t) (results : list QuizResult.t)
    : WordLibrary * list TestRecord.t :=
  ((updater now results declared lib).2,
   history ++ [make_record now now_id results]).

(** The predicate of the filter in [getDueWords]:
    [!w.lastReviewed], under the comment "Never reviewed", and the
    comparison of the due time with the clock. *)
Definition is_due (now : Z) (w : WordPair.t) : bool :=
  if JsNumber.falsy (WordPair.lastReviewed w) then true
  else
    let intervalMs :=
      JsNumber.or_zero (WordPair.reviewInterval w) * 24 * 60 * 60 * 1000 in
    JsNumber.or_zero (WordPair.lastReviewed w) + intervalMs <=? now.

(** [Object.values(library).flat()]. *)
Definition allWords (lib : WordLibrary) : list WordPair.t :=
  concat (snd <$> lib).

Definition getDueWords (now : Z) (lib : WordLibrary) : list WordPair.t :=
  filter (fun w => is_due now w = true) (allWords lib).

End Scheduler.

(** ** Account and library store (src/services/storageService.ts) *)

(** What [JSON.parse] gives back for a stored text: a user list, one user,
    the data of one user, or a text of another shape (or one that does
    not parse). *)
Inductive Stored :=
| JUsers (users : list User.t)
| JUser (user : User.t)
| JData (data : UserData.t)
| JOther (text : string).

(** The errors thrown by the store, named as in the error taxonomy. *)
Inductive StoreError := DuplicateUsername | UserNotFound | InvalidCredentials.

Definition error_message (e : StoreError) : string :=
  match e with
  | DuplicateUsername => "Username already exists"
  | UserNotFound => "User not found"
  | InvalidCredentials => "Invalid password"
  end.

Module StorageService.

Definition USERS_KEY : string := "sdb_users".
Definition CURRENT_USER_KEY : string := "sdb_current_user".
Definition ADMIN_IDENTIFIERS : list string :=
  ["910272860@qq.com"; "13585556661"].

Definition getUserKey (userId : string) : string :=
  String.append "sdb_data_" userId.

Definition word (i e c cat : string) : WordPair.t :=
  {| WordPair.id := i; WordPair.english := e; WordPair.chinese := c;
     WordPair.category := Some cat; WordPair.lastReviewed := None;
     WordPair.reviewInterval := None; WordPair.proficiency := None |}.

Definition DEFAULT_LIBRARY : WordLibrary :=
  [ ("Food",
      [ word "def-1" "Apple" "苹果" "Food";
        word "def-2" "Banana" "香蕉" "Food";
        word "def-3" "Bread" "面包" "Food";
        word "def-4" "Milk" "牛奶" "Food";
        word "def-5" "Coffee" "咖啡" "Food" ]);
    ("Animals",
      [ word "def-6" "Cat" "猫" "Animals";
        word "def-7" "Dog" "狗" "Animals";
        word "def-8" "Elephant" "大象" "Animals";
        word "def-9" "Tiger" "老虎" "Animals" ]);
    ("School",
      [ word "def-10" "Book" "书" "School";
        word "def-11" "Teacher" "老师" "School";
        word "def-12" "Student" "学生" "School";
        word "def-13" "Pencil" "铅笔" "School" ]);
    ("Travel",
      [ word "def-14" "Airport" "机场" "Travel";
        word "def-15" "Ticket" "票" "Travel";
        word "def-16" "Hotel" "酒店" "Travel" ]);
    ("Uncategorized", []) ].

Section WithCaseFolding.

Context {folding : JsString.CaseFolding}.

(** A missing key, a text that does not parse (the [catch]) and a text
    of another shape all give the empty list. *)
Definition getUsers (ls : gmap string Stored) : list User.t :=
  match ls !! USERS_KEY with
  | Some (JUsers users) => users
  | _ => []
  end.

(** [u.username.toLowerCase() === name.toLowerCase()]. *)
Definition same_name (name : string) (u : User.t) : bool :=
  JsString.eqb (JsString.toLowerCase (User.username u))
               (JsString.toLowerCase name).

Definition saveUserData (ls : gmap string Stored) (userId : string)
    (data : UserData.t) : gmap string Stored :=
  <[getUserKey userId := JData data]> ls.

Definition loadUserData (ls : gmap string Stored) (userId : string)
    : option UserData.t :=
  match ls !! getUserKey userId with
  | Some (JData data) => Some data
  | _ => None
  end.

(** [register]: [now_id] and [now_created] are the two readings of the
    clock.  A thrown error leaves the storage as it was. *)
Definition register (ls : gmap string Stored) (username : string)
    (password : option string) (now_id now_created : Z)
    : (StoreError + User.t) * gmap string Stored :=
  let users := getUsers ls in
  let cleanUsername := JsString.trim username in
  if existsb (same_name cleanUsername) users
  then (inl DuplicateUsername, ls)
  else
    let isAdmin := bool_decide (cleanUsername ∈ ADMIN_IDENTIFIERS) in
    let newUser :=
      {| User.id := JsString.ofZ now_id;
         User.username := cleanUsername;
         User.password := password;
         User.createdAt := now_created;
         User.isAdmin := isAdmin |} in
    let ls1 := <[USERS_KEY := JUsers (users ++ [newUser])]> ls in
    let ls2 :=
      saveUserData ls1 (User.id newUser)
        {| UserData.library := DEFAULT_LIBRARY; UserData.history := [] |} in
    (inr newUser, ls2).

(** [user.password && user.password !== password]. *)
Definition password_rejected (stored supplied : option string) : bool :=
  match stored with
  | None => false
  | Some p =>
      JsString.truthy p
      && negb (match supplied with
               | Some q => JsString.eqb p q
               | None => false
               end)
  end.

Definition login (ls : gmap string Stored) (username : string)
    (password : option string) : StoreError + User.t :=
  let users := getUsers ls in
  match find (same_name (JsString.trim username)) users with
  | None => inl UserNotFound
  | Some user =>
      if password_rejected (User.password user) password
      then inl InvalidCredentials
      else inr user
  end.

Definition saveSession (ls : gmap string Stored) (user : User.t)
    : gmap string Stored :=
  <[CURRENT_USER_KEY := JUser user]> ls.

Definition getSession (ls : gmap string Stored) : option User.t :=
  match ls !! CURRENT_USER_KEY with
  | Some (JUser u) => Some u
  | _ => None
  end.

Definition clearSession (ls : gmap string Stored) : gmap string Stored :=
  delete CURRENT_USER_KEY ls.

Definition deleteUser (ls : gmap string Stored) (targetUserId : string)
    : gmap string Stored :=
  let users :=
    filter (fun u => User.id u ≠ targetUserId) (getUsers ls) in
  delete (getUserKey targetUserId) (<[USERS_KEY := JUsers users]> ls).

Definition set_password (newPass : string) (u : User.t) : User.t :=
  {| User.id := User.id u;
     User.username := User.username u;
     User.password := Some newPass;
     User.createdAt := User.createdAt u;
     User.isAdmin := User.isAdmin u |}.

Definition resetUserPassword (ls : gmap string Stored)
    (targetUserId newPass : string) : gmap string Stored :=
  let users := getUsers ls in
  match fst <$> list_find (fun u => User.id u = targetUserId) users with
  | Some idx =>
      <[USERS_KEY := JUsers (alter (set_password newPass) idx users)]> ls
  | None => ls
  end.

End WithCaseFolding.

End StorageService.


(** ** Inputs of the scenarios *)

Module Scenario.

(** The word [{id: "w1", interval: 0, proficiency: 0}], never reviewed. *)
Definition w1 : WordPair.t :=
  {| WordPair.id := "w1"; WordPair.english := "Apple";
     WordPair.chinese := "苹果"; WordPair.category := Some "Food";
     WordPair.lastReviewed := None; WordPair.reviewInterval := Some 0;
     WordPair.proficiency := Some 0 |}.

(** [w1] after a review at [now] that left it at interval [i] and
    proficiency [p]. *)
Definition w1_at (now i p : Z) : WordPair.t :=
  {| WordPair.id := "w1"; WordPair.english := "Apple";
     WordPair.chinese := "苹果"; WordPair.category := Some "Food";
     WordPair.lastReviewed := Some now; WordPair.reviewInterval := Some i;
     WordPair.proficiency := Some p |}.

Definition library_of (w : WordPair.t) : WordLibrary :=
  [("Uncategorized", []); ("Food", [w])].

Definition answer (correct : bool) : QuizResult.t :=
  {| QuizResult.wordId := "w1"; QuizResult.isCorrect := correct;
     QuizResult.userAnswer := (if correct then "Apple" else EmptyString);
     QuizResult.correctAnswer := "Apple"; QuizResult.timestamp := 0 |}.

(** An answer to the word with the id [wid]. *)
Definition answer_to (wid : string) (correct : bool) : QuizResult.t :=
  {| QuizResult.wordId := wid; QuizResult.isCorrect := correct;
     QuizResult.userAnswer := (if correct then "ok" else EmptyString);
     QuizResult.correctAnswer := "ok"; QuizResult.timestamp := 0 |}.


End Scenario.

(** ** Invariants and inputs of the account store *)

Section StoreInvariants.

Context {folding : JsString.CaseFolding}.

(** Every stored username is its own [trim]: what [register] writes. *)
Definition usernames_trimmed (ls : gmap string Stored) : Prop :=
  ∀ u, u ∈ StorageService.getUsers ls →
       JsString.trim (User.username u) = User.username u.

(** The storages that the application can produce from an empty one:
    the writes of [StorageService] and the daily-content cache of
    [App]. *)
Inductive reachable : gmap string Stored → Prop :=
| reach_empty : reachable ∅
| reach_register ls username password now_id now_created :
    reachable ls →
    reachable (StorageService.register ls username password
                 now_id now_created).2
| reach_saveSession ls user :
    reachable ls → reachable (StorageService.saveSession ls user)
| reach_clearSession ls :
    reachable ls → reachable (StorageService.clearSession ls)
| reach_saveUserData ls userId data :
    reachable ls → reachable (StorageService.saveUserData ls userId data)
| reach_deleteUser ls targetUserId :
    reachable ls → reachable (StorageService.deleteUser ls targetUserId)
| reach_resetUserPassword ls targetUserId newPass :
    reachable ls →
    reachable (StorageService.resetUserPassword ls targetUserId newPass)
| reach_daily_content ls text :
    reachable ls → reachable (<["sdb_daily_content" := JOther text]> ls).

(** [a] and [b] are the same name up to the case of the letters. *)
Definition same_letters (a b : string) : Prop :=
  JsString.toLowerCase a = JsString.toLowerCase b.

(** The user matched by [login]: the first stored user whose name is
    [name] up to case. *)
Definition matched_user (ls : gmap string Stored) (name : string)
    : option User.t :=
  find (StorageService.same_name name) (StorageService.getUsers ls).

End StoreInvariants.

Module StoreScenario.

(** The storage after [register("bob", "secret")] on an empty storage,
    with the clock at 1700000000000. *)
Definition after_bob {folding : JsString.CaseFolding} : gmap string Stored :=
  (StorageService.register ∅ "bob" (Some "secret")
     1700000000000 1700000000000).2.

Definition bob : User.t :=
  {| User.id := "1700000000000"; User.username := "bob";
     User.password := Some "secret"; User.createdAt := 1700000000000;
     User.isAdmin := false |}.

End StoreScenario.

(** The score as the specification words it:
    [round(100 * correctCount / totalCount)] on exact numbers, with a tie
    rounded up as [Math.round] does. *)
Definition spec_score (correct total : Z) : Z :=
  (2 * (100 * correct) + total) / (2 * total).


(** ** JavaScript objects used as maps

    An object is the list of its own properties in the order in which
    [Object.keys], [Object.values], [for (k in o)] and the spread
    [{...o}] enumerate them: the array indices in ascending order, then
    the other names in the order of their creation.  A read [o[k]] that
    finds no own property falls back on [Object.prototype]. *)

Module JsObject.

(** The property names of [Object.prototype]; each holds a function,
    [__proto__] an object: all are truthy, none is an array. *)
Definition OBJECT_PROTOTYPE : list string :=
  [ "constructor"; "__defineGetter__"; "__defineSetter__"; "hasOwnProperty";
    "__lookupGetter__"; "__lookupSetter__"; "isPrototypeOf";
    "propertyIsEnumerable"; "toString"; "valueOf"; "__proto__";
    "toLocaleString" ].

Definition digit_value (a : ascii) : option N :=
  let n := N_of_ascii a in
  if ((48 <=? n) && (n <=? 57))%N then Some (n - 48)%N else None.

Fixpoint parse_digits (acc : N) (s : string) : option N :=
  match s with
  | EmptyString => Some acc
  | String a s' =>
      match digit_value a with
      | Some d => parse_digits (10 * acc + d)%N s'
      | None => None
      end
  end.

(** An array index: the canonical decimal text of an integer below
    [2^32 - 1]. *)
Definition array_index (k : string) : option N :=
  match k with
  | EmptyString => None
  | String a rest =>
      match parse_digits 0 k with
      | Some n =>
          if (bool_decide (k = "0") || negb (bool_decide (a = "0"%char)))
             && (n <? 4294967295)%N
          then Some n else None
      | None => None
      end
  end.

Section Properties.

Context {A : Type}.

Fixpoint get_own (o : list (string * A)) (k : string) : option A :=
  match o with
  | [] => None
  | (k', v) :: o' => if decide (k' = k) then Some v else get_own o' k
  end.

(** What a read [o[k]] finds. *)
Inductive found := Own (v : A) | Inherited | Undefined.

Definition get (o : list (string * A)) (k : string) : found :=
  match get_own o k with
  | Some v => Own v
  | None => if bool_decide (k ∈ OBJECT_PROTOTYPE) then Inherited else Undefined
  end.

Fixpoint replace (o : list (string * A)) (k : string) (v : A)
    : list (string * A) :=
  match o with
  | [] => []
  | (k', v') :: o' =>
      if decide (k' = k) then (k, v) :: o' else (k', v') :: replace o' k v
  end.

(** A new array index goes before the first name that is no array index
    or a larger one. *)
Fixpoint insert_index (o : list (string * A)) (n : N) (k : string) (v : A)
    : list (string * A) :=
  match o with
  | [] => [(k, v)]
  | (k', v') :: o' =>
      match array_index k' with
      | Some m =>
          if (m <? n)%N then (k', v') :: insert_index o' n k v
          else (k, v) :: o
      | None => (k, v) :: o
      end
  end.

(** [{...o, [k]: v}], and [o[k] = v] on a copy, for a name that is an
    own property or is not inherited. *)
Definition set (o : list (string * A)) (k : string) (v : A)
    : list (string * A) :=
  match get_own o k with
  | Some _ => replace o k v
  | None =>
      match array_index k with
      | Some n => insert_index o n k v
      | None => o ++ [(k, v)]
      end
  end.

(** [delete o[k]] on a copy. *)
Definition delete (o : list (string * A)) (k : string) : list (string * A) :=
  filter (fun entry => entry.1 ≠ k) o.

(** [Object.keys(o)]. *)
Definition keys (o : list (string * A)) : list string := o.*1.

End Properties.

Arguments found : clear implicits.

End JsObject.

(** ** Quiz and library handlers of the application
    (src/App.tsx and its version with accounts, src/components/SetupScreen.tsx) *)

Inductive AppMode := SETUP | QUIZ | RESULT | SPEAKING | DIALOGUE | ADMIN.

(** The part of the state of [App] that the handlers below read and
    write. *)
Module AppState.
Record t := mk {
  user : option User.t;
  mode : AppMode;
  activeWords : list WordPair.t;
  library : WordLibrary;
  testHistory : list TestRecord.t
}.
End AppState.

Module App.

Definition with_category (w : WordPair.t) (cat : string) : WordPair.t :=
  {| WordPair.id := WordPair.id w;
     WordPair.english := WordPair.english w;
     WordPair.chinese := WordPair.chinese w;
     WordPair.category := Some cat;
     WordPair.lastReviewed := WordPair.lastReviewed w;
     WordPair.reviewInterval := WordPair.reviewInterval w;
     WordPair.proficiency := WordPair.proficiency w |}.

Section WithCaseFolding.

Context {folding : JsString.CaseFolding}.

(** [w.english.toLowerCase() === word.english.toLowerCase()]. *)
Definition same_english (word w : WordPair.t) : bool :=
  JsString.eqb (JsString.toLowerCase (WordPair.english w))
               (JsString.toLowerCase (WordPair.english word)).

(** The updater of [handleAddToLibrary]; [None] is the [TypeError] of
    [existingList.some] when [prev[targetCategory]] is an inherited
    property. *)
Definition handleAddToLibrary (word : WordPair.t) (category : string)
    (prev : WordLibrary) : option WordLibrary :=
  let targetCategory := JsString.or_default category "Uncategorized" in
  match JsObject.get prev targetCategory with
  | JsObject.Inherited => None
  | found =>
      let existingList :=
        match found with JsObject.Own l => l | _ => [] end in
      if existsb (same_english word) existingList then Some prev
      else Some (JsObject.set prev targetCategory
                   (existingList ++ [with_category word targetCategory]))
  end.

End WithCaseFolding.

(** [handleLogin]: the library and history of the user are loaded; a user
    without stored data gets the one empty category. *)
Definition handleLogin (ls : gmap string Stored) (loggedInUser : User.t)
    (st : AppState.t) : AppState.t :=
  match StorageService.loadUserData ls (User.id loggedInUser) with
  | Some data =>
      {| AppState.user := Some loggedInUser;
         AppState.mode := SETUP;
         AppState.activeWords :=
           take 5 (Scheduler.allWords (UserData.library data));
         AppState.library := UserData.library data;
         AppState.testHistory := UserData.history data |}
  | None =>
      {| AppState.user := Some loggedInUser;
         AppState.mode := SETUP;
         AppState.activeWords := [];
         AppState.library := [("Uncategorized", [])];
         AppState.testHistory := [] |}
  end.

Definition handleLogout (ls : gmap string Stored) (st : AppState.t)
    : gmap string Stored * AppState.t :=
  (StorageService.clearSession ls,
   {| AppState.user := None;
      AppState.mode := AppState.mode st;
      AppState.activeWords := [];
      AppState.library := [];
      AppState.testHistory := [] |}).

(** The effect on mount: a stored session is logged in as it is. *)
Definition mount (ls : gmap string Stored) (st : AppState.t) : AppState.t :=
  match StorageService.getSession ls with
  | Some session => handleLogin ls session st
  | None => st
  end.

(** The effect that follows a change of the library, the history or the
    user. *)
Definition persist (ls : gmap string Stored) (st : AppState.t)
    : gmap string Stored :=
  match AppState.user st with
  | Some u =>
      StorageService.saveUserData ls (User.id u)
        {| UserData.library := AppState.library st;
           UserData.history := AppState.testHistory st |}
  | None => ls
  end.

End App.

(** ** The login form (AuthScreen) *)

Module AuthScreen.

(** [!s.trim()]. *)
Definition blank (s : string) : bool :=
  negb (JsString.truthy (JsString.trim s)).

(** [handleSubmit] up to the call of [onLogin]: the message shown, or the
    user handed to [onLogin], with the storage left behind. *)
Definition handleSubmit {folding : JsString.CaseFolding}
    (ls : gmap string Stored) (isLogin : bool)
    (username password : string) (now_id now_created : Z)
    : (string + User.t) * gmap string Stored :=
  if blank username || blank password
  then (inl "Please fill in all fields", ls)
  else
    let attempt :=
      if isLogin
      then (StorageService.login ls username (Some password), ls)
      else StorageService.register ls username (Some password)
             now_id now_created in
    match attempt with
    | (inl err, ls') =>
        (inl (JsString.or_default (error_message err) "Authentication failed"),
         ls')
    | (inr user, ls') => (inr user, StorageService.saveSession ls' user)
    end.

End AuthScreen.

(** ** The admin dashboard (src/components/AdminDashboard.tsx) *)

Module AdminDashboard.

(** A row of the table; [lastActive] is the time stamp handed to
    [toLocaleDateString], [None] standing for the text ['Never']. *)
Record UserStat := mkUserStat {
  user : User.t;
  wordCount : Z;
  testCount : Z;
  lastActive : option Z
}.

Definition stat_of (ls : gmap string Stored) (u : User.t) : UserStat :=
  let data := StorageService.loadUserData ls (User.id u) in
  let totalWords :=
    match data with
    | Some d =>
        fold_left (fun acc arr => acc + Z.of_nat (length arr))
                  (UserData.library d).*2 0
    | None => 0
    end in
  let totalTests :=
    match data with
    | Some d => Z.of_nat (length (UserData.history d))
    | None => 0
    end in
  let lastTest :=
    match data with
    | Some d => TestRecord.date <$> last (UserData.history d)
    | None => None
    end in
  {| user := u;
     wordCount := totalWords;
     testCount := totalTests;
     lastActive := if JsNumber.falsy lastTest then None else lastTest |}.

Definition loadUsers (ls : gmap string Stored) : list UserStat :=
  stat_of ls <$> StorageService.getUsers ls.

(** [confirm(...)] answered by [confirmed]. *)
Definition handleDelete (ls : gmap string Stored) (confirmed : bool)
    (targetUserId : string) : gmap string Stored :=
  if confirmed then StorageService.deleteUser ls targetUserId else ls.

(** [prompt(...)] answered by [answer], [None] when it is dismissed. *)
Definition handleResetPassword (ls : gmap string Stored)
    (answer : option string) (targetUserId : string) : gmap string Stored :=
  match answer with
  | Some newPass =>
      if JsString.truthy newPass
      then StorageService.resetUserPassword ls targetUserId newPass
      else ls
  | None => ls
  end.

(** [s.includes(sub)]. *)
Fixpoint includes (s sub : string) : bool :=
  if String.prefix sub s then true
  else match s with
       | EmptyString => false
       | String _ s' => includes s' sub
       end.

Definition filteredUsers {folding : JsString.CaseFolding}
    (users : list UserStat) (search : string) : list UserStat :=
  filter (fun row =>
            includes (JsString.toLowerCase (User.username (user row)))
                     (JsString.toLowerCase search) = true)
         users.

End AdminDashboard.

(** ** Library handlers of the setup screen
    (src/components/SetupScreen.tsx)

    Each handler returns the library handed to [onUpdateLibrary]; [None]
    is a [TypeError] raised on the way (a read of [.map] on a category
    that is no own property), and a handler that returns early gives the
    library back. *)

Module SetupScreen.

(** [handleLoadReview]: the active words after the click.  [shuffled] is
    the array of due words as [sort] leaves it. *)
Definition handleLoadReview (now : Z) (lib : WordLibrary)
    (shuffled activeWords : list WordPair.t) : list WordPair.t :=
  let due := Scheduler.getDueWords now lib in
  if (length due =? 0)%nat then activeWords else take 20 shuffled.

Definition handleDeleteCategory (lib : WordLibrary) (cat : string)
    (confirmed : bool) : WordLibrary :=
  if JsString.eqb cat "Uncategorized" || negb confirmed then lib
  else JsObject.delete lib cat.

Definition handleRenameCategory (lib : WordLibrary)
    (renamingCategory renameCatName : string) : option WordLibrary :=
  if AuthScreen.blank renameCatName
     || JsString.eqb renameCatName renamingCategory
  then Some lib
  else
    match JsObject.get lib renameCatName with
    | JsObject.Undefined =>
        match JsObject.get_own lib renamingCategory with
        | Some ws =>
            let newLib1 := JsObject.set lib renameCatName ws in
            let newLib2 := JsObject.delete newLib1 renamingCategory in
            Some (JsObject.set newLib2 renameCatName
                    ((fun w => App.with_category w renameCatName) <$> ws))
        | None => None
        end
    | _ => Some lib
    end.

End SetupScreen.

(** ** Invariants used by the further properties *)

Section FurtherInvariants.

Context {folding : JsString.CaseFolding}.

(** Stored usernames are pairwise distinct up to case. *)
Definition usernames_unique (ls : gmap string Stored) : Prop :=
  NoDup ((λ u, JsString.toLowerCase (User.username u))
           <$> StorageService.getUsers ls).

(** Every stored user has a password, and not the empty one. *)
Definition passwords_set (ls : gmap string Stored) : Prop :=
  ∀ u, u ∈ StorageService.getUsers ls →
       ∃ p, User.password u = Some p ∧ p ≠ EmptyString.

(** The storages that the screens can produce from an empty one: the
    login form, the admin dashboard, logging out and the effects of
    [App]. *)
Inductive ui_reachable : gmap string Stored → Prop :=
| ui_empty : ui_reachable ∅
| ui_handleSubmit ls isLogin username password now_id now_created :
    ui_reachable ls →
    ui_reachable (AuthScreen.handleSubmit ls isLogin username password
                    now_id now_created).2
| ui_handleLogout ls st :
    ui_reachable ls → ui_reachable (App.handleLogout ls st).1
| ui_persist ls st :
    ui_reachable ls → ui_reachable (App.persist ls st)
| ui_handleDelete ls confirmed targetUserId :
    ui_reachable ls →
    ui_reachable (AdminDashboard.handleDelete ls confirmed targetUserId)
| ui_handleResetPassword ls answer targetUserId :
    ui_reachable ls →
    ui_reachable (AdminDashboard.handleResetPassword ls answer targetUserId)
| ui_daily_content ls text :
    ui_reachable ls → ui_reachable (<["sdb_daily_content" := JOther text]> ls).

(** A score that [JSON.stringify] writes as the number it is: [NaN], the
    infinities and the negative zero are not. *)
Definition json_number (x : spec_float) : Prop :=
  match x with
  | S754_finite _ _ _ => True
  | S754_zero s => s = false
  | _ => False
  end.

Definition json_safe (data : UserData.t) : Prop :=
  Forall (λ r, json_number (TestRecord.score r)) (UserData.history data).

(** The fields of a word that the scheduler does not write. *)
Definition content (w : WordPair.t) : string * string * string * option string :=
  (WordPair.id w, WordPair.english w, WordPair.chinese w, WordPair.category w).

Definition contents (lib : WordLibrary)
    : list (string * list (string * string * string * option string)) :=
  (λ entry : string * list WordPair.t, (entry.1, content <$> entry.2)) <$> lib.

(** The ranges of the data model: an interval that is not negative and a
    proficiency from 0 to 5. *)
Definition srs_in_range (w : WordPair.t) : Prop :=
  0 ≤ JsNumber.or_zero (WordPair.reviewInterval w)
  ∧ 0 ≤ JsNumber.or_zero (WordPair.proficiency w) ≤ 5.

(** No category holds two words with the same English text up to case. *)
Definition english_unique (lib : WordLibrary) : Prop :=
  Forall (λ entry : string * list WordPair.t,
            NoDup ((λ w, JsString.toLowerCase (WordPair.english w))
                     <$> entry.2))
         lib.

End FurtherInvariants.

(** * Properties of the review scheduler *)

Section SchedulerFacts.

Import Scheduler.

Implicit Types (lib : WordLibrary) (res : QuizResult.t).
Implicit Types (ws : list WordPair.t) (w : WordPair.t).

Lemma findIndex_Some wid ws idx :
  findIndex wid ws = Some idx ↔
  ∃ w, ws !! idx = Some w ∧ WordPair.id w = wid ∧
       ∀ j y, ws !! j = Some y → (j < idx)%nat → WordPair.id y ≠ wid.
Proof.
  unfold findIndex. split.
  - intros ([i w] & Hf & Hi)%fmap_Some. simpl in Hi. subst i.
    apply list_find_Some in Hf as (Hw & Hid & Hfirst). eauto.
  - intros (w & Hw & Hid & Hfirst). apply fmap_Some. exists (idx, w).
    split; [|done]. apply list_find_Some. naive_solver.
Qed.

Lemma findIndex_None wid ws :
  findIndex wid ws = None ↔ Forall (λ w, WordPair.id w ≠ wid) ws.
Proof. unfold findIndex. by rewrite fmap_None, list_find_None. Qed.

Lemma update_category_found now res ws idx w :
  findIndex (QuizResult.wordId res) ws = Some idx →
  ws !! idx = Some w →
  update_category now res ws
  = <[idx := update_word now (QuizResult.isCorrect res) w]> ws.
Proof. intros Hf Hw. unfold update_category. by rewrite Hf, Hw. Qed.

Lemma update_category_not_found now res ws :
  Forall (λ w, WordPair.id w ≠ QuizResult.wordId res) ws →
  update_category now res ws = ws.
Proof.
  intros H%findIndex_None. unfold update_category. by rewrite H.
Qed.

Lemma process_result_lookup now lib res k :
  process_result now lib res !! k
  = (λ entry, (entry.1, update_category now res entry.2)) <$> lib !! k.
Proof. unfold process_result. apply list_lookup_fmap. Qed.

Lemma process_result_length now lib res :
  length (process_result now lib res) = length lib.
Proof. unfold process_result. apply length_fmap. Qed.

(** The categories and their order are those of the library. *)
Lemma process_result_keys now lib res :
  (process_result now lib res).*1 = lib.*1.
Proof.
  unfold process_result. rewrite <- list_fmap_compose.
  by apply list_fmap_ext.
Qed.

Lemma applyResults_snoc now lib results res :
  applyResults now lib (results ++ [res])
  = process_result now (applyResults now lib results) res.
Proof. unfold applyResults. by rewrite fold_left_app. Qed.

Lemma applyResults_single now lib res :
  applyResults now lib [res] = process_result now lib res.
Proof. reflexivity. Qed.

(** The located entry of a category after one result. *)
Lemma process_result_located now lib res k cat ws idx w :
  lib !! k = Some (cat, ws) →
  findIndex (QuizResult.wordId res) ws = Some idx →
  ws !! idx = Some w →
  process_result now lib res !! k
  = Some (cat, <[idx := update_word now (QuizResult.isCorrect res) w]> ws).
Proof.
  intros Hk Hf Hw. rewrite process_result_lookup, Hk. simpl.
  by rewrite (update_category_found _ _ _ _ _ Hf Hw).
Qed.

(** No entry carries the id of the result: the library is returned as
    it is. *)
Lemma process_result_unmatched now lib res :
  Forall (λ w, WordPair.id w ≠ QuizResult.wordId res) (allWords lib) →
  process_result now lib res = lib.
Proof.
  unfold process_result, allWords. induction lib as [|[cat ws] lib IH].
  - done.
  - rewrite fmap_cons. simpl. intros [Hws Hrest]%Forall_app.
    rewrite update_category_not_found by done.
    f_equal. by apply IH.
Qed.

Lemma elem_of_concat {A} (x : A) (ls : list (list A)) :
  x ∈ concat ls ↔ ∃ l, x ∈ l ∧ l ∈ ls.
Proof.
  induction ls as [|l ls IH]; simpl.
  - split; [by intros ?%not_elem_of_nil|]. by intros (l & _ & ?%not_elem_of_nil).
  - rewrite elem_of_app, IH. split.
    + intros [H|(l' & H1 & H2)]; [exists l|exists l']; split; auto;
        [apply list_elem_of_here | by apply list_elem_of_further].
    + intros (l' & H1 & [->|H2]%elem_of_cons); [by left|right; eauto].
Qed.

Lemma elem_of_allWords lib w :
  w ∈ allWords lib ↔
  ∃ k cat ws idx, lib !! k = Some (cat, ws) ∧ ws !! idx = Some w.
Proof.
  unfold allWords. rewrite elem_of_concat. split.
  - intros (ws & Hw & Hws). apply list_elem_of_fmap in Hws as ([cat ws'] & -> & He).
    apply list_elem_of_lookup in He as [k Hk].
    apply list_elem_of_lookup in Hw as [idx Hidx]. eauto 6.
  - intros (k & cat & ws & idx & Hk & Hidx). exists ws. split.
    + by eapply list_elem_of_lookup_2.
    + apply list_elem_of_fmap. exists (cat, ws). split; [done|].
      by eapply list_elem_of_lookup_2.
Qed.

(** With unique ids, two positions that hold the same id are one
    position. *)
Lemma unique_ids_position lib k1 cat1 ws1 i1 w1 k2 cat2 ws2 i2 w2 :
  NoDup (WordPair.id <$> allWords lib) →
  lib !! k1 = Some (cat1, ws1) → ws1 !! i1 = Some w1 →
  lib !! k2 = Some (cat2, ws2) → ws2 !! i2 = Some w2 →
  WordPair.id w1 = WordPair.id w2 →
  k1 = k2 ∧ i1 = i2.
Proof.
  unfold allWords. revert k1 k2.
  induction lib as [|[cat ws] lib IH]; intros k1 k2 Hnd H1 Hi1 H2 Hi2 Hid.
  - done.
  - rewrite fmap_cons in Hnd. simpl in Hnd. rewrite fmap_app in Hnd.
    apply NoDup_app in Hnd as (Hws & Hdisj & Hrest).
    assert (Hin_rest : ∀ k c l i w, lib !! k = Some (c, l) → l !! i = Some w →
              WordPair.id w ∈ WordPair.id <$> concat (lib.*2)).
    { intros k c l i w Hk Hi. apply list_elem_of_fmap. exists w. split; [done|].
      apply elem_of_concat. exists l. split; [by eapply list_elem_of_lookup_2|].
      apply list_elem_of_fmap. exists (c, l). split; [done|].
      by eapply list_elem_of_lookup_2. }
    assert (Hin_ws : ∀ i w, ws !! i = Some w → WordPair.id w ∈ WordPair.id <$> ws).
    { intros i w Hi. apply list_elem_of_fmap. exists w. split; [done|].
      by eapply list_elem_of_lookup_2. }
    destruct k1 as [|k1], k2 as [|k2]; simpl in H1, H2.
    + injection H1 as <- <-. injection H2 as <- <-. split; [done|].
      eapply NoDup_lookup; [exact Hws| |].
      * rewrite list_lookup_fmap, Hi1. done.
      * rewrite list_lookup_fmap, Hi2. simpl. by rewrite Hid.
    + injection H1 as <- <-. exfalso.
      apply (Hdisj (WordPair.id w1)); [by eapply Hin_ws|].
      rewrite Hid. by eapply Hin_rest.
    + injection H2 as <- <-. exfalso.
      apply (Hdisj (WordPair.id w2)); [by eapply Hin_ws|].
      rewrite <- Hid. by eapply Hin_rest.
    + destruct (IH k1 k2 Hrest H1 Hi1 H2 Hi2 Hid) as [-> ->]. done.
Qed.

(** With unique ids, [findIndex] stops at the entry that carries the
    id, and the other categories do not hold the id. *)
Lemma unique_ids_findIndex lib k cat ws idx w :
  NoDup (WordPair.id <$> allWords lib) →
  lib !! k = Some (cat, ws) → ws !! idx = Some w →
  findIndex (WordPair.id w) ws = Some idx.
Proof.
  intros Hnd Hk Hidx. apply findIndex_Some. exists w. split; [done|].
  split; [done|]. intros j y Hj Hlt Hid.
  destruct (unique_ids_position lib k cat ws j y k cat ws idx w) as [_ ->];
    auto. lia.
Qed.

Lemma unique_ids_elsewhere lib k cat ws idx w k' cat' ws' :
  NoDup (WordPair.id <$> allWords lib) →
  lib !! k = Some (cat, ws) → ws !! idx = Some w →
  lib !! k' = Some (cat', ws') → k' ≠ k →
  Forall (λ y, WordPair.id y ≠ WordPair.id w) ws'.
Proof.
  intros Hnd Hk Hidx Hk' Hne. apply Forall_lookup. intros j y Hj Hid.
  destruct (unique_ids_position lib k' cat' ws' j y k cat ws idx w) as [-> _];
    auto.
Qed.

(** One entry located, the id absent from the other categories: the
    library changes at that entry alone. *)
Lemma process_result_single_entry now lib res k cat ws idx w :
  lib !! k = Some (cat, ws) →
  findIndex (QuizResult.wordId res) ws = Some idx →
  ws !! idx = Some w →
  (∀ k' cat' ws', lib !! k' = Some (cat', ws') → k' ≠ k →
     Forall (λ y, WordPair.id y ≠ QuizResult.wordId res) ws') →
  process_result now lib res
  = <[k := (cat, <[idx := update_word now (QuizResult.isCorrect res) w]> ws)]>
      lib.
Proof.
  intros Hk Hf Hw Hothers. apply list_eq. intros i.
  destruct (decide (i = k)) as [->|Hne].
  - rewrite (process_result_located _ _ _ _ _ _ _ _ Hk Hf Hw).
    symmetry. apply list_lookup_insert_eq. by eapply lookup_lt_Some.
  - rewrite list_lookup_insert_ne by done.
    rewrite process_result_lookup.
    destruct (lib !! i) as [[cat' ws']|] eqn:Hi; [|done]. simpl.
    rewrite update_category_not_found; [done|]. by eapply Hothers.
Qed.

Lemma is_due_spec now w :
  is_due now w = true ↔
  WordPair.lastReviewed w = None ∨ WordPair.lastReviewed w = Some 0 ∨
  ∃ t, WordPair.lastReviewed w = Some t ∧
       t + JsNumber.or_zero (WordPair.reviewInterval w) * 86400000 ≤ now.
Proof.
  unfold is_due, JsNumber.falsy.
  destruct (WordPair.lastReviewed w) as [t|]; simpl; [|naive_solver].
  destruct (Z.eqb_spec t 0) as [->|Hne]; [naive_solver|].
  rewrite Z.leb_le. split.
  - intros H. right. right. exists t. split; [done|]. lia.
  - intros [H|[H|(t' & H & Hle)]]; [done|congruence|].
    injection H as <-. lia.
Qed.

Lemma elem_of_getDueWords now lib w :
  w ∈ getDueWords now lib ↔ w ∈ allWords lib ∧ is_due now w = true.
Proof. unfold getDueWords. rewrite list_elem_of_filter. tauto. Qed.

(** The ids of the words are not touched by the scheduler. *)
Lemma update_category_ids now res ws :
  WordPair.id <$> update_category now res ws = WordPair.id <$> ws.
Proof.
  unfold update_category.
  destruct (findIndex (QuizResult.wordId res) ws) as [idx|]; [|done].
  destruct (ws !! idx) as [w|] eqn:Hw; [|done].
  rewrite list_fmap_insert. apply list_insert_id.
  by rewrite list_lookup_fmap, Hw.
Qed.

Lemma process_result_ids now lib res :
  WordPair.id <$> allWords (process_result now lib res)
  = WordPair.id <$> allWords lib.
Proof.
  unfold allWords, process_result.
  induction lib as [|[cat ws] lib IH]; [done|].
  rewrite !fmap_cons. simpl. rewrite !fmap_app, update_category_ids.
  by rewrite IH.
Qed.

Lemma applyResults_ids now lib results :
  WordPair.id <$> allWords (applyResults now lib results)
  = WordPair.id <$> allWords lib.
Proof.
  induction results as [|res results IH] using rev_ind; [done|].
  by rewrite applyResults_snoc, process_result_ids.
Qed.



Lemma digits2_pos_size p : digits2_pos p = Pos.size p.
Proof. induction p; simpl; congruence. Qed.

Lemma digits2_pos_iter_xO p d :
  digits2_pos (Pos.iter xO p d) = (digits2_pos p + d)%positive.
Proof.
  induction d as [|d IH] using Pos.peano_ind.
  - simpl. lia.
  - rewrite Pos.iter_succ. simpl. rewrite IH. lia.
Qed.

Lemma digits2_pos_bound p : Zpos p < 2 ^ 53 → Zpos (digits2_pos p) ≤ 53.
Proof.
  intros Hp. rewrite digits2_pos_size.
  pose proof (Pos.size_le p) as Hle.
  destruct (Z.le_gt_cases (Zpos (Pos.size p)) 53) as [H|H]; [done|exfalso].
  assert (2 ^ 54 ≤ 2 ^ Zpos (Pos.size p)) by (apply Z.pow_le_mono_r; lia).
  assert (Z.pos (2 ^ Pos.size p) ≤ Z.pos p~0) by lia.
  rewrite Pos2Z.inj_pow in *. lia.
Qed.

(** A mantissa of 53 bits with an exponent in range is kept as it is. *)
Lemma binary_round_aux_exact m e :
  digits2_pos m = 53%positive → -1074 ≤ e ≤ 971 →
  binary_round_aux 53 1024 false (Z.pos m) e loc_Exact
  = S754_finite false m e.
Proof.
  intros Hm He.
  unfold binary_round_aux, shr_fexp, fexp, emin, Zdigits2. rewrite Hm.
  replace (Z.max (53 + e - 53) (3 - 1024 - 53) - e) with 0 by lia.
  simpl. rewrite Hm.
  replace (Z.max (53 + e - 53) (3 - 1024 - 53) - e) with 0 by lia.
  simpl.
  destruct (e <=? 1024 - 53) eqn:Hle; [done|]. apply Z.leb_gt in Hle. lia.
Qed.

(** An integer from 1 to [2^53 - 1] is a positive finite number. *)
Lemma ofZ_finite n :
  0 < n < 2 ^ 53 → ∃ m e, JsNumber.ofZ n = S754_finite false m e.
Proof.
  intros [Hpos Hlt]. destruct n as [|p|p]; [lia| |lia].
  pose proof (digits2_pos_bound p Hlt) as Hd.
  unfold JsNumber.ofZ, binary_normalize, binary_round, shl_align, fexp, emin,
    JsNumber.prec, JsNumber.emax.
  replace (Z.max (Z.pos (digits2_pos p) + 0 - 53) (3 - 1024 - 53))
    with (Z.pos (digits2_pos p) - 53) by lia.
  destruct (Z.pos (digits2_pos p) - 53 - 0) as [|q|q] eqn:Hq; [|lia|].
  - rewrite binary_round_aux_exact; [eauto|lia|lia].
  - rewrite binary_round_aux_exact; [eauto| |lia].
    rewrite digits2_pos_iter_xO. lia.
Qed.

(** The locals after the loop: the counter has grown by the number of
    correct results, the array by one wrong word for each incorrect
    result, in the order of the results. *)
Lemma tally_fold results l :
  fold_left tally results l
  = {| Locals.correctCount := Locals.correctCount l + correctCount results;
       Locals.wrongWords := Locals.wrongWords l ++ collect_wrongWords results |}.
Proof.
  revert l. induction results as [|res results IH]; intros [c ws].
  - simpl. by rewrite Z.add_0_r, app_nil_r.
  - simpl. rewrite IH. unfold tally, correctCount, collect_wrongWords.
    destruct (QuizResult.isCorrect res) eqn:Hres; simpl.
    + rewrite filter_cons_True by done.
      rewrite filter_cons_False by (rewrite Hres; done).
      simpl. f_equal. lia.
    + rewrite filter_cons_False by (rewrite Hres; done).
      rewrite filter_cons_True by done.
      simpl. by rewrite <- app_assoc.
Qed.

Lemma make_record_wrongWords now now_id results :
  TestRecord.wrongWords (make_record now now_id results)
  = collect_wrongWords results.
Proof. simpl. by rewrite tally_fold. Qed.

(** [0 / n * 100], rounded, for a number [n] of results from 1 to
    [2^53 - 1]: the positive zero. *)
Lemma percentage_zero len :
  0 < len < 2 ^ 53 → percentage 0 len = JsNumber.ofZ 0.
Proof.
  intros Hlen. unfold percentage.
  destruct (ofZ_finite len Hlen) as (m & e & ->).
  destruct (ofZ_finite 100) as (m' & e' & ->); [lia|]. reflexivity.
Qed.

End SchedulerFacts.

(** * The claims on the review scheduler *)

Section SchedulerClaims.

Import Scheduler.

(** Membership of the first word of a concrete list of words. *)
Ltac first_word := vm_compute; apply list_elem_of_here.

(** The entry that one result rewrites, seen from [handleQuizComplete]:
    [earlier] are the results of the same quiz handled before [res]. *)
Lemma handleQuizComplete_last now now_id lib history earlier res
    k cat ws idx w :
  applyResults now lib earlier !! k = Some (cat, ws) →
  findIndex (QuizResult.wordId res) ws = Some idx →
  ws !! idx = Some w →
  ∃ ws',
    (handleQuizComplete now now_id lib history (earlier ++ [res])).1 !! k
    = Some (cat, ws') ∧
    ws' !! idx = Some (update_word now (QuizResult.isCorrect res) w) ∧
    ∀ j, j ≠ idx → ws' !! j = ws !! j.
Proof.
  intros Hk Hf Hw. simpl. rewrite applyResults_snoc.
  rewrite (process_result_located _ _ _ _ _ _ _ _ Hk Hf Hw).
  eexists. split; [done|]. split.
  - apply list_lookup_insert_eq. by eapply lookup_lt_Some.
  - intros j Hj. by apply list_lookup_insert_ne.
Qed.

(** C1. After a correct result the located entry has interval 1 when its
    interval was 0 (or unset) and twice its interval otherwise, and its
    proficiency is the previous one plus 1, capped at 5; the entries at
    the other positions of the category are kept.  The located entry is
    the first of its category with the id of the result, the only one
    when ids are unique ([unique_ids_findIndex]).  Scenario: the word
    [w1], at interval 0 and proficiency 0, answered correctly in three
    quizzes in a row (or three times in one quiz) goes through the
    intervals 1, 2, 4 and the proficiencies 1, 2, 3. *)
Theorem C1_correct_result_doubles_interval :
  (∀ now now_id lib history earlier res k cat ws idx w,
     QuizResult.isCorrect res = true →
     applyResults now lib earlier !! k = Some (cat, ws) →
     findIndex (QuizResult.wordId res) ws = Some idx →
     ws !! idx = Some w →
     ∃ ws' w',
       (handleQuizComplete now now_id lib history (earlier ++ [res])).1 !! k
       = Some (cat, ws') ∧
       ws' !! idx = Some w' ∧
       (∀ j, j ≠ idx → ws' !! j = ws !! j) ∧
       WordPair.id w' = WordPair.id w ∧
       WordPair.reviewInterval w'
       = Some (if JsNumber.or_zero (WordPair.reviewInterval w) =? 0 then 1
               else 2 * JsNumber.or_zero (WordPair.reviewInterval w)) ∧
       WordPair.proficiency w'
       = Some (Z.min (JsNumber.or_zero (WordPair.proficiency w) + 1) 5))
  ∧ (∀ t1 t2 t3,
       applyResults t1 (Scenario.library_of Scenario.w1) [Scenario.answer true]
       = Scenario.library_of (Scenario.w1_at t1 1 1) ∧
       applyResults t2 (Scenario.library_of (Scenario.w1_at t1 1 1))
         [Scenario.answer true]
       = Scenario.library_of (Scenario.w1_at t2 2 2) ∧
       applyResults t3 (Scenario.library_of (Scenario.w1_at t2 2 2))
         [Scenario.answer true]
       = Scenario.library_of (Scenario.w1_at t3 4 3) ∧
       applyResults t1 (Scenario.library_of Scenario.w1)
         [Scenario.answer true; Scenario.answer true; Scenario.answer true]
       = Scenario.library_of (Scenario.w1_at t1 4 3)).
Proof.
  split.
  - intros now now_id lib history earlier res k cat ws idx w Hok Hk Hf Hw.
    destruct (handleQuizComplete_last now now_id lib history earlier res
                k cat ws idx w Hk Hf Hw) as (ws' & Hlib & Hidx & Hframe).
    exists ws', (update_word now (QuizResult.isCorrect res) w).
    rewrite Hok in *. repeat split; try done.
    unfold update_word. simpl. f_equal.
    destruct (JsNumber.or_zero (WordPair.reviewInterval w) =? 0); lia.
  - intros t1 t2 t3. repeat split; reflexivity.
Qed.

(** C1 on the scenario library: the first correct answer for [w1]. *)
Lemma C1_witness :
  ∃ ws' w',
    (handleQuizComplete 1000 1001 (Scenario.library_of Scenario.w1) []
       ([] ++ [Scenario.answer true])).1 !! 1%nat
    = Some ("Food", ws') ∧
    ws' !! 0%nat = Some w' ∧
    (∀ j, j ≠ 0%nat → ws' !! j = [Scenario.w1] !! j) ∧
    WordPair.id w' = WordPair.id Scenario.w1 ∧
    WordPair.reviewInterval w'
    = Some (if JsNumber.or_zero (WordPair.reviewInterval Scenario.w1) =? 0
            then 1
            else 2 * JsNumber.or_zero (WordPair.reviewInterval Scenario.w1)) ∧
    WordPair.proficiency w'
    = Some (Z.min (JsNumber.or_zero (WordPair.proficiency Scenario.w1) + 1) 5).
Proof.
  apply (proj1 C1_correct_result_doubles_interval 1000 1001
           (Scenario.library_of Scenario.w1) [] [] (Scenario.answer true)
           1%nat "Food" [Scenario.w1] 0%nat Scenario.w1);
    reflexivity.
Defined.

(** C2. After an incorrect result the located entry has interval 0, its
    proficiency is the previous one minus 1, floored at 0, and its
    [lastReviewed] is the time of the quiz.  Scenario: [w1] answered
    correctly once (interval 1) and then incorrectly is back at interval 0
    and proficiency 0. *)
Theorem C2_incorrect_result_resets_interval :
  (∀ now now_id lib history earlier res k cat ws idx w,
     QuizResult.isCorrect res = false →
     applyResults now lib earlier !! k = Some (cat, ws) →
     findIndex (QuizResult.wordId res) ws = Some idx →
     ws !! idx = Some w →
     ∃ ws' w',
       (handleQuizComplete now now_id lib history (earlier ++ [res])).1 !! k
       = Some (cat, ws') ∧
       ws' !! idx = Some w' ∧
       (∀ j, j ≠ idx → ws' !! j = ws !! j) ∧
       WordPair.id w' = WordPair.id w ∧
       WordPair.reviewInterval w' = Some 0 ∧
       WordPair.proficiency w'
       = Some (Z.max (JsNumber.or_zero (WordPair.proficiency w) - 1) 0) ∧
       WordPair.lastReviewed w' = Some now)
  ∧ (∀ t1 t2,
       applyResults t1 (Scenario.library_of Scenario.w1) [Scenario.answer true]
       = Scenario.library_of (Scenario.w1_at t1 1 1) ∧
       applyResults t2 (Scenario.library_of (Scenario.w1_at t1 1 1))
         [Scenario.answer false]
       = Scenario.library_of (Scenario.w1_at t2 0 0)).
Proof.
  split.
  - intros now now_id lib history earlier res k cat ws idx w Hko Hk Hf Hw.
    destruct (handleQuizComplete_last now now_id lib history earlier res
                k cat ws idx w Hk Hf Hw) as (ws' & Hlib & Hidx & Hframe).
    exists ws', (update_word now (QuizResult.isCorrect res) w).
    rewrite Hko in *. repeat split; done.
  - intros t1 t2. split; reflexivity.
Qed.

(** C2 on the scenario library: a wrong answer after a correct one. *)
Lemma C2_witness :
  ∃ ws' w',
    (handleQuizComplete 2000 2001
       (Scenario.library_of (Scenario.w1_at 1000 1 1)) []
       ([] ++ [Scenario.answer false])).1 !! 1%nat
    = Some ("Food", ws') ∧
    ws' !! 0%nat = Some w' ∧
    (∀ j, j ≠ 0%nat → ws' !! j = [Scenario.w1_at 1000 1 1] !! j) ∧
    WordPair.id w' = WordPair.id (Scenario.w1_at 1000 1 1) ∧
    WordPair.reviewInterval w' = Some 0 ∧
    WordPair.proficiency w'
    = Some (Z.max
              (JsNumber.or_zero
                 (WordPair.proficiency (Scenario.w1_at 1000 1 1)) - 1) 0) ∧
    WordPair.lastReviewed w' = Some 2000.
Proof.
  apply (proj1 C2_incorrect_result_resets_interval 2000 2001
           (Scenario.library_of (Scenario.w1_at 1000 1 1)) [] []
           (Scenario.answer false) 1%nat "Food"
           [Scenario.w1_at 1000 1 1] 0%nat (Scenario.w1_at 1000 1 1));
    reflexivity.
Defined.


(** C5. With unique ids, a result whose id is carried by an entry of the
    library replaces that entry by its updated copy and nothing else: the
    library after [handleQuizComplete] on the results up to and with
    that result is the library after the results before it, with that
    one entry replaced.  In a category, the entry replaced is the first
    with the id; the entries after it are kept, whatever their ids.  A
    result whose id no entry carries is skipped: the library is the one
    left by the results before it, and a quiz of such results leaves the
    library as it is.  The scheduler is a total function: no result
    raises an error. *)
Theorem C5_replace_located_entry_only :
  (∀ now now_id lib history earlier res k cat ws idx w,
     NoDup (WordPair.id <$> allWords lib) →
     (handleQuizComplete now now_id lib history earlier).1 !! k
     = Some (cat, ws) →
     ws !! idx = Some w →
     WordPair.id w = QuizResult.wordId res →
     (handleQuizComplete now now_id lib history (earlier ++ [res])).1
     = <[k := (cat, <[idx := update_word now (QuizResult.isCorrect res) w]> ws)]>
         (handleQuizComplete now now_id lib history earlier).1)
  ∧ (∀ now now_id lib history earlier res k cat ws idx w,
       (handleQuizComplete now now_id lib history earlier).1 !! k
       = Some (cat, ws) →
       findIndex (QuizResult.wordId res) ws = Some idx →
       ws !! idx = Some w →
       (handleQuizComplete now now_id lib history (earlier ++ [res])).1 !! k
       = Some (cat, <[idx := update_word now (QuizResult.isCorrect res) w]> ws))
  ∧ (∀ now now_id lib history earlier res,
       (∀ w, w ∈ allWords lib → WordPair.id w ≠ QuizResult.wordId res) →
       (handleQuizComplete now now_id lib history (earlier ++ [res])).1
       = (handleQuizComplete now now_id lib history earlier).1)
  ∧ (∀ now now_id lib history results,
       (∀ res w, res ∈ results → w ∈ allWords lib →
                 WordPair.id w ≠ QuizResult.wordId res) →
       (handleQuizComplete now now_id lib history results).1 = lib).
Proof.
  assert (Hskip : ∀ now lib earlier res,
            (∀ w, w ∈ allWords lib → WordPair.id w ≠ QuizResult.wordId res) →
            applyResults now lib (earlier ++ [res])
            = applyResults now lib earlier).
  { intros now lib earlier res H. rewrite applyResults_snoc.
    apply process_result_unmatched, Forall_forall. intros w Hw Hid.
    assert (Hin : WordPair.id w ∈ WordPair.id <$> allWords lib).
    { rewrite <- (applyResults_ids now lib earlier).
      apply list_elem_of_fmap. eauto. }
    apply list_elem_of_fmap in Hin as (w0 & Hid0 & Hw0).
    apply (H w0 Hw0). congruence. }
  split; [|split; [|split]].
  - intros now now_id lib history earlier res k cat ws idx w Hnd Hk Hw Hid.
    simpl in *. rewrite applyResults_snoc.
    rewrite <- (applyResults_ids now lib earlier) in Hnd.
    apply process_result_single_entry; [done| |done|].
    + rewrite <- Hid. by eapply unique_ids_findIndex.
    + intros k' cat' ws' Hk' Hne. rewrite <- Hid.
      exact (unique_ids_elsewhere _ _ _ _ _ _ _ _ _ Hnd Hk Hw Hk' Hne).
  - intros now now_id lib history earlier res k cat ws idx w Hk Hf Hw.
    simpl in *. rewrite applyResults_snoc.
    by apply process_result_located.
  - intros now now_id lib history earlier res H. simpl. by apply Hskip.
  - intros now now_id lib history results H. simpl.
    induction results as [|res results IH] using rev_ind; [done|].
    rewrite Hskip.
    + apply IH. intros res' w Hres Hw. apply (H res' w); [|done].
      apply elem_of_app. by left.
    + intros w Hw. apply (H res w); [|done]. apply elem_of_app. right.
      apply list_elem_of_here.
Qed.

(** C5 on the starter library: after a correct answer to "def-2", a
    wrong answer to "def-7" rewrites the second word of the second
    category and leaves the fifteen other words as they were. *)
Lemma C5_witness :
  (handleQuizComplete 1000 1001 StorageService.DEFAULT_LIBRARY []
     ([Scenario.answer_to "def-2" true]
      ++ [Scenario.answer_to "def-7" false])).1
  = <[1%nat :=
        ("Animals",
         <[1%nat := update_word 1000 false
                      (StorageService.word "def-7" "Dog" "狗" "Animals")]>
           [ StorageService.word "def-6" "Cat" "猫" "Animals";
             StorageService.word "def-7" "Dog" "狗" "Animals";
             StorageService.word "def-8" "Elephant" "大象" "Animals";
             StorageService.word "def-9" "Tiger" "老虎" "Animals" ])]>
      (handleQuizComplete 1000 1001 StorageService.DEFAULT_LIBRARY []
         [Scenario.answer_to "def-2" true]).1.
Proof.
  apply (proj1 C5_replace_located_entry_only 1000 1001
           StorageService.DEFAULT_LIBRARY [] [Scenario.answer_to "def-2" true]
           (Scenario.answer_to "def-7" false) 1%nat "Animals"
           [ StorageService.word "def-6" "Cat" "猫" "Animals";
             StorageService.word "def-7" "Dog" "狗" "Animals";
             StorageService.word "def-8" "Elephant" "大象" "Animals";
             StorageService.word "def-9" "Tiger" "老虎" "Animals" ]
           1%nat (StorageService.word "def-7" "Dog" "狗" "Animals")).
  - refine (bool_decide_unpack _ _). vm_compute. exact I.
  - reflexivity.
  - reflexivity.
  - reflexivity.
Defined.

(** The record counts the results, whatever they are. *)
Lemma make_record_total now now_id results :
  TestRecord.total (make_record now now_id results)
  = Z.of_nat (length results).
Proof. reflexivity. Qed.

(** No guard on the empty quiz: the score is [NaN], the record is built
    all the same. *)
Lemma make_record_empty now now_id :
  TestRecord.score (make_record now now_id []) = S754_nan
  ∧ TestRecord.total (make_record now now_id []) = 0
  ∧ TestRecord.wrongWords (make_record now now_id []) = [].
Proof. repeat split; reflexivity. Qed.

Lemma correctCount_bounds results :
  0 ≤ correctCount results ≤ Z.of_nat (length results).
Proof.
  unfold correctCount. split; [lia|]. apply inj_le, length_filter.
Qed.

(** The counter is read before the updater has run: whatever the
    answers, the score of a quiz that is not empty is 0. *)
Lemma make_record_score_zero now now_id results :
  results ≠ [] → Z.of_nat (length results) < 2 ^ 53 →
  TestRecord.score (make_record now now_id results) = JsNumber.ofZ 0.
Proof.
  intros Hne Hlen. simpl.
  apply percentage_zero. destruct results; [done|]. simpl in *. lia.
Qed.

(** C4, at the failing input.  For a quiz of one question, answered
    correctly, the record has total 1 and score 0, where
    [round(100 * 1 / 1)] is 100.  The counter of correct answers is
    incremented by the updater handed to [setLibrary], which runs at
    the next render; the record literal reads it before, in the
    handler.  So the score is 0 for every quiz that is not empty, and
    [NaN], without an error, for the empty one; the total is the number
    of results. *)
Theorem C4_score_read_before_the_update :
  ∀ now now_id lib history,
    (handleQuizComplete now now_id lib history [Scenario.answer true]).2
    = history ++ [make_record now now_id [Scenario.answer true]]
    ∧ correctCount [Scenario.answer true] = 1
    ∧ TestRecord.total (make_record now now_id [Scenario.answer true]) = 1
    ∧ TestRecord.score (make_record now now_id [Scenario.answer true])
      = JsNumber.ofZ 0
    ∧ spec_score 1 1 = 100
    ∧ JsNumber.ofZ 0 ≠ JsNumber.ofZ 100
    ∧ (∀ results,
         results ≠ [] → Z.of_nat (length results) < 2 ^ 53 →
         TestRecord.score (make_record now now_id results) = JsNumber.ofZ 0
         ∧ TestRecord.total (make_record now now_id results)
           = Z.of_nat (length results))
    ∧ TestRecord.score (make_record now now_id []) = S754_nan.
Proof.
  intros now now_id lib history.
  split; [reflexivity|]. split; [reflexivity|]. split; [reflexivity|].
  split; [vm_compute; reflexivity|]. split; [reflexivity|].
  split; [vm_compute; discriminate|]. split; [|reflexivity].
  intros results Hne Hlen. split; [|reflexivity].
  by apply make_record_score_zero.
Qed.

End SchedulerClaims.

(** * Properties of the JavaScript strings *)

Section StringFacts.

Import JsString.

Lemma length_ind {A} (P : list A → Prop) :
  (∀ l, (∀ l', (length l' < length l)%nat → P l') → P l) → ∀ l, P l.
Proof.
  intros H l. remember (length l) as n eqn:Hn. revert l Hn.
  induction (lt_wf n) as [n _ IH]. intros l ->. apply H.
  intros l' Hlt. by eapply IH.
Qed.

Lemma strip_step from_end l :
  strip from_end l
  = match leading_space from_end l with
    | O => l
    | n => strip from_end (drop n l)
    end.
Proof.
  destruct l as [|a l1]; [done|]. simpl.
  destruct (is_space1 a); [done|].
  destruct l1 as [|b l2]; [done|].
  destruct (space2 from_end a b); [done|].
  destruct l2 as [|c l3]; [done|].
  by destruct (space3 from_end a b c).
Qed.

Lemma leading_space_length from_end l :
  (leading_space from_end l ≤ length l)%nat.
Proof.
  destruct l as [|a [|b [|c l]]]; simpl;
    repeat match goal with |- context [if ?b then _ else _] => destruct b end;
    lia.
Qed.

Lemma leading_space_strip from_end l :
  leading_space from_end (strip from_end l) = O.
Proof.
  induction l as [l IH] using length_ind. rewrite strip_step.
  destruct (leading_space from_end l) as [|n] eqn:Hn; [done|].
  apply IH. pose proof (leading_space_length from_end l).
  rewrite length_drop. lia.
Qed.

Lemma strip_fixed from_end l :
  leading_space from_end l = O → strip from_end l = l.
Proof. intros H. by rewrite strip_step, H. Qed.

Lemma strip_idempotent from_end l :
  strip from_end (strip from_end l) = strip from_end l.
Proof. apply strip_fixed, leading_space_strip. Qed.

Lemma strip_suffix from_end l : ∃ p, l = p ++ strip from_end l.
Proof.
  induction l as [l IH] using length_ind. rewrite strip_step.
  destruct (leading_space from_end l) as [|n] eqn:Hn; [by exists []|].
  destruct (IH (drop (S n) l)) as [p Hp].
  { pose proof (leading_space_length from_end l). rewrite length_drop. lia. }
  exists (take (S n) l ++ p). rewrite <- app_assoc, <- Hp.
  by rewrite take_drop.
Qed.

Lemma leading_space_app from_end l1 l2 :
  leading_space from_end l1 ≠ O →
  leading_space from_end (l1 ++ l2) = leading_space from_end l1.
Proof.
  destruct l1 as [|a [|b [|c l1]]]; simpl; try done;
    repeat match goal with |- context [if ?b then _ else _] => destruct b end;
    done.
Qed.

Lemma lower_char_cases a :
  lower_char a = a ∨ (byte (lower_char a) < 128 ∧ byte a < 128)%N.
Proof.
  destruct a as [[] [] [] [] [] [] [] []];
    (by left) || (right; by vm_compute).
Qed.

Lemma in_range_lower_char lo hi a :
  (128 ≤ lo)%N → in_range lo hi (lower_char a) = in_range lo hi a.
Proof.
  intros Hlo. destruct (lower_char_cases a) as [->|[H1 H2]]; [done|].
  unfold in_range.
  rewrite (proj2 (N.leb_gt lo (byte (lower_char a)))) by lia.
  by rewrite (proj2 (N.leb_gt lo (byte a))) by lia.
Qed.

Lemma is_space1_lower_char a : is_space1 (lower_char a) = is_space1 a.
Proof. destruct a as [[] [] [] [] [] [] [] []]; reflexivity. Qed.

Lemma is_space2_lower_char a b :
  is_space2 (lower_char a) (lower_char b) = is_space2 a b.
Proof. unfold is_space2, is_byte. by rewrite !in_range_lower_char. Qed.

Lemma is_space3_lower_char a b c :
  is_space3 (lower_char a) (lower_char b) (lower_char c) = is_space3 a b c.
Proof. unfold is_space3, is_byte. by rewrite !in_range_lower_char. Qed.

Lemma leading_space_lower from_end l :
  leading_space from_end (lower_char <$> l) = leading_space from_end l.
Proof.
  destruct l as [|a [|b [|c l]]]; simpl; rewrite ?is_space1_lower_char;
    unfold space2, space3; destruct from_end;
    by rewrite ?is_space2_lower_char, ?is_space3_lower_char.
Qed.

Lemma strip_lower from_end l :
  strip from_end (lower_char <$> l) = lower_char <$> strip from_end l.
Proof.
  induction l as [l IH] using length_ind.
  rewrite (strip_step _ l), strip_step, leading_space_lower.
  destruct (leading_space from_end l) as [|n] eqn:Hn; [done|].
  rewrite <- fmap_drop. apply IH.
  pose proof (leading_space_length from_end l). rewrite length_drop. lia.
Qed.

Lemma list_ascii_of_ascii_lower s :
  list_ascii_of_string (ascii_lower s) = lower_char <$> list_ascii_of_string s.
Proof. induction s as [|a s IH]; simpl; [done|]. by rewrite IH. Qed.

Lemma ascii_lower_of_list l :
  ascii_lower (string_of_list_ascii l) = string_of_list_ascii (lower_char <$> l).
Proof. induction l as [|a l IH]; simpl; [done|]. by rewrite IH. Qed.

Lemma ascii_lower_trimStart s :
  ascii_lower (trimStart s) = trimStart (ascii_lower s).
Proof.
  unfold trimStart.
  by rewrite ascii_lower_of_list, list_ascii_of_ascii_lower, strip_lower.
Qed.

Lemma ascii_lower_trimEnd s :
  ascii_lower (trimEnd s) = trimEnd (ascii_lower s).
Proof.
  unfold trimEnd.
  rewrite ascii_lower_of_list, list_ascii_of_ascii_lower.
  by rewrite <- fmap_reverse, strip_lower, fmap_reverse.
Qed.

Lemma ascii_lower_trim s : ascii_lower (trim s) = trim (ascii_lower s).
Proof. unfold trim. by rewrite ascii_lower_trimEnd, ascii_lower_trimStart. Qed.

Lemma trim_idempotent s : trim (trim s) = trim s.
Proof.
  unfold trim, trimEnd, trimStart.
  rewrite !list_ascii_of_string_of_list_ascii.
  set (t := strip false (list_ascii_of_string s)).
  set (u := reverse (strip true (reverse t))).
  assert (Hu : strip false u = u).
  { apply strip_fixed.
    destruct (leading_space false u) as [|n] eqn:Hn; [done|]. exfalso.
    destruct (strip_suffix true (reverse t)) as [p Hp].
    assert (Ht : t = u ++ reverse p).
    { unfold u. rewrite <- reverse_app, <- Hp. by rewrite reverse_involutive. }
    pose proof (leading_space_strip false (list_ascii_of_string s)) as H0.
    fold t in H0. rewrite Ht, leading_space_app in H0 by (by rewrite Hn).
    congruence. }
  rewrite Hu. unfold u. by rewrite reverse_involutive, strip_idempotent.
Qed.

(** The lower-casing of the letters A to Z is one [CaseFolding]: the
    scenarios, whose names and words are ASCII, are evaluated with it.
    Beyond ASCII it is not the function of an engine (it keeps "É"); the
    theorems do not depend on it. *)
Definition ascii_folding : CaseFolding :=
  {| toLowerCase := ascii_lower;
     toLowerCase_ascii := λ s _, eq_refl;
     toLowerCase_trim := ascii_lower_trim |}.

Context {folding : CaseFolding}.

(** A name equal up to case to a trimmed name is matched by its own
    trimmed form. *)
Lemma same_letters_trimmed stored given :
  trim stored = stored →
  same_letters stored given →
  same_letters stored (trim given).
Proof.
  unfold same_letters. intros Htrim Heq.
  rewrite toLowerCase_trim, <- Heq, <- toLowerCase_trim. by rewrite Htrim.
Qed.

(** On ASCII text the case of the letters A to Z is all that two names
    equal up to case can differ in. *)
Lemma same_letters_ascii a b :
  is_ascii a = true → is_ascii b = true →
  (same_letters a b ↔ ascii_lower a = ascii_lower b).
Proof.
  intros Ha Hb. unfold same_letters.
  by rewrite (toLowerCase_ascii a Ha), (toLowerCase_ascii b Hb).
Qed.

Lemma toLowerCase_empty : toLowerCase EmptyString = EmptyString.
Proof. by rewrite toLowerCase_ascii. Qed.

Lemma js_eqb_true a b : eqb a b = true ↔ a = b.
Proof. unfold eqb. apply bool_decide_eq_true. Qed.

Lemma js_eqb_false a b : eqb a b = false ↔ a ≠ b.
Proof. unfold eqb. apply bool_decide_eq_false. Qed.

Lemma js_truthy_true s : truthy s = true ↔ s ≠ EmptyString.
Proof. unfold truthy. rewrite negb_true_iff. apply js_eqb_false. Qed.

End StringFacts.

(** * Properties of the account store *)

Section StoreFacts.

Import StorageService.

Implicit Types (ls : gmap string Stored) (u : User.t).

Context {folding : JsString.CaseFolding}.

(** The data keys are pairwise distinct and differ from the two fixed
    keys. *)
Lemma getUserKey_inj a b : getUserKey a = getUserKey b → a = b.
Proof. unfold getUserKey. cbv [String.append]. congruence. Qed.

Lemma getUserKey_not_USERS_KEY a : getUserKey a ≠ USERS_KEY.
Proof. unfold getUserKey, USERS_KEY. cbv [String.append]. congruence. Qed.

Lemma getUserKey_not_CURRENT_USER_KEY a : getUserKey a ≠ CURRENT_USER_KEY.
Proof.
  unfold getUserKey, CURRENT_USER_KEY. cbv [String.append]. congruence.
Qed.

Lemma USERS_KEY_not_CURRENT_USER_KEY : USERS_KEY ≠ CURRENT_USER_KEY.
Proof. discriminate. Qed.

Lemma getUsers_insert_users ls users :
  getUsers (<[USERS_KEY := JUsers users]> ls) = users.
Proof. unfold getUsers. by rewrite lookup_insert_eq. Qed.

Lemma getUsers_insert_other ls key v :
  key ≠ USERS_KEY → getUsers (<[key := v]> ls) = getUsers ls.
Proof. intros Hne. unfold getUsers. by rewrite lookup_insert_ne. Qed.

Lemma getUsers_delete_other ls key :
  key ≠ USERS_KEY → getUsers (delete key ls) = getUsers ls.
Proof. intros Hne. unfold getUsers. by rewrite lookup_delete_ne. Qed.

Lemma loadUserData_saveUserData ls userId data :
  loadUserData (saveUserData ls userId data) userId = Some data.
Proof. unfold loadUserData, saveUserData. by rewrite lookup_insert_eq. Qed.

Lemma loadUserData_insert_users ls users userId :
  loadUserData (<[USERS_KEY := JUsers users]> ls) userId
  = loadUserData ls userId.
Proof.
  unfold loadUserData. rewrite lookup_insert_ne; [done|].
  intros H. by apply (getUserKey_not_USERS_KEY userId).
Qed.

Lemma same_name_true name u :
  same_name name u = true ↔ same_letters (User.username u) name.
Proof. unfold same_name, same_letters. apply js_eqb_true. Qed.

Lemma some_same_name name (users : list User.t) :
  existsb (same_name name) users = true ↔
  ∃ u, u ∈ users ∧ same_letters (User.username u) name.
Proof.
  rewrite existsb_exists. split; intros (u & Hin & Hu); exists u.
  - by rewrite list_elem_of_In, <- same_name_true.
  - by rewrite <- list_elem_of_In, same_name_true.
Qed.

Lemma none_same_name name (users : list User.t) :
  existsb (same_name name) users = false ↔
  ∀ u, u ∈ users → ¬ same_letters (User.username u) name.
Proof.
  rewrite <- not_true_iff_false, some_same_name. split.
  - intros H u Hin Hu. apply H. eauto.
  - intros H (u & Hin & Hu). by apply (H u).
Qed.

(** [users.find(...)] gives the first user of the list with the name. *)
Lemma matched_user_Some ls name u :
  matched_user ls name = Some u ↔
  ∃ i, getUsers ls !! i = Some u ∧ same_letters (User.username u) name ∧
       ∀ j v, getUsers ls !! j = Some v → (j < i)%nat →
              ¬ same_letters (User.username v) name.
Proof.
  unfold matched_user. generalize (getUsers ls) as users.
  induction users as [|x users IH]; simpl.
  - split; [done|]. by intros (i & Hi & _).
  - destruct (same_name name x) eqn:Hx.
    + apply same_name_true in Hx. split.
      * intros [= <-]. exists 0%nat. split; [done|]. split; [done|]. lia.
      * intros (i & Hi & Hu & Hfirst). destruct i as [|i]; [by simplify_eq/=|].
        exfalso. apply (Hfirst 0%nat x); [done|lia|done].
    + apply not_true_iff_false in Hx. rewrite same_name_true in Hx.
      rewrite IH. split.
      * intros (i & Hi & Hu & Hfirst). exists (S i). split; [done|].
        split; [done|]. intros [|j] v Hj Hlt; simpl in Hj.
        -- by injection Hj as <-.
        -- apply (Hfirst j v Hj). lia.
      * intros (i & Hi & Hu & Hfirst). destruct i as [|i].
        -- simpl in Hi. by injection Hi as ->.
        -- exists i. split; [done|]. split; [done|].
           intros j v Hj Hlt. apply (Hfirst (S j) v Hj). lia.
Qed.

Lemma matched_user_None ls name :
  matched_user ls name = None ↔
  ∀ u, u ∈ getUsers ls → ¬ same_letters (User.username u) name.
Proof.
  unfold matched_user. split.
  - intros Hnone u Hin%list_elem_of_In Hu%same_name_true.
    by rewrite (find_none _ _ Hnone u Hin) in Hu.
  - intros H. destruct (find _ _) as [u|] eqn:Hf; [|done].
    apply find_some in Hf as [Hin%list_elem_of_In Hu%same_name_true].
    by destruct (H u Hin).
Qed.

(** The two outcomes of [register]. *)
Lemma register_duplicate ls username password now_id now_created :
  existsb (same_name (JsString.trim username)) (getUsers ls) = true →
  register ls username password now_id now_created
  = (inl DuplicateUsername, ls).
Proof. intros H. unfold register. by rewrite H. Qed.

Lemma register_fresh ls username password now_id now_created :
  existsb (same_name (JsString.trim username)) (getUsers ls) = false →
  let newUser :=
    {| User.id := JsString.ofZ now_id;
       User.username := JsString.trim username;
       User.password := password;
       User.createdAt := now_created;
       User.isAdmin :=
         bool_decide (JsString.trim username ∈ ADMIN_IDENTIFIERS) |} in
  register ls username password now_id now_created
  = (inr newUser,
     <[getUserKey (JsString.ofZ now_id) :=
         JData {| UserData.library := DEFAULT_LIBRARY;
                  UserData.history := [] |}]>
       (<[USERS_KEY := JUsers (getUsers ls ++ [newUser])]> ls)).
Proof. intros H. unfold register. by rewrite H. Qed.

(** A successful [register] appends the new user to the stored list. *)
Lemma register_users ls username password now_id now_created u ls' :
  register ls username password now_id now_created = (inr u, ls') →
  getUsers ls' = getUsers ls ++ [u]
  ∧ User.username u = JsString.trim username.
Proof.
  unfold register.
  destruct (existsb _ _); [discriminate|]. intros [= <- <-].
  unfold saveUserData. simpl.
  rewrite getUsers_insert_other by apply getUserKey_not_USERS_KEY.
  by rewrite getUsers_insert_users.
Qed.

(** [register] keeps the stored usernames trimmed. *)
Lemma register_usernames_trimmed ls username password now_id now_created :
  usernames_trimmed ls →
  usernames_trimmed (register ls username password now_id now_created).2.
Proof.
  intros Hinv.
  destruct (register ls username password now_id now_created)
    as [[e|u] ls'] eqn:Hreg; simpl.
  - unfold register in Hreg. destruct (existsb _ _); [|discriminate].
    by injection Hreg as _ <-.
  - apply register_users in Hreg as [Husers Hname].
    intros v. rewrite Husers, elem_of_app, list_elem_of_singleton.
    intros [Hv| ->]; [by apply Hinv|].
    rewrite Hname. apply trim_idempotent.
Qed.

Lemma empty_usernames_trimmed : usernames_trimmed ∅.
Proof. intros u. unfold getUsers. rewrite lookup_empty. by intros ?%not_elem_of_nil. Qed.

Lemma deleteUser_users ls target :
  getUsers (deleteUser ls target)
  = filter (λ u, User.id u ≠ target) (getUsers ls).
Proof.
  unfold deleteUser.
  rewrite getUsers_delete_other by apply getUserKey_not_USERS_KEY.
  apply getUsers_insert_users.
Qed.

Lemma deleteUser_usernames_trimmed ls target :
  usernames_trimmed ls → usernames_trimmed (deleteUser ls target).
Proof.
  intros Hinv u. rewrite deleteUser_users, list_elem_of_filter.
  intros [_ Hu]. by apply Hinv.
Qed.

Lemma resetUserPassword_users ls target newPass :
  getUsers (resetUserPassword ls target newPass)
  = match fst <$> list_find (λ u, User.id u = target) (getUsers ls) with
    | Some idx => alter (set_password newPass) idx (getUsers ls)
    | None => getUsers ls
    end.
Proof.
  unfold resetUserPassword.
  destruct (fst <$> list_find _ _); [apply getUsers_insert_users|done].
Qed.

Lemma resetUserPassword_usernames_trimmed ls target newPass :
  usernames_trimmed ls →
  usernames_trimmed (resetUserPassword ls target newPass).
Proof.
  intros Hinv u. rewrite resetUserPassword_users.
  destruct (fst <$> list_find _ _) as [idx|]; [|by apply Hinv].
  intros [j Hj]%list_elem_of_lookup. rewrite list_lookup_alter in Hj.
  case_decide as Hidx.
  - apply fmap_Some in Hj as (v & Hv & ->). simpl.
    apply Hinv. by eapply list_elem_of_lookup_2.
  - apply Hinv. by eapply list_elem_of_lookup_2.
Qed.

(** The invariant holds in every storage the application produces. *)
Lemma reachable_usernames_trimmed ls : reachable ls → usernames_trimmed ls.
Proof.
  induction 1 as [|ls username password now_id now_created _ IH
                  |ls user _ IH|ls _ IH|ls userId data _ IH
                  |ls target _ IH|ls target newPass _ IH|ls text _ IH].
  - apply empty_usernames_trimmed.
  - by apply register_usernames_trimmed.
  - intros u. unfold saveSession.
    rewrite getUsers_insert_other; [apply IH|]. discriminate.
  - intros u. unfold clearSession.
    rewrite getUsers_delete_other; [apply IH|]. discriminate.
  - intros u. unfold saveUserData.
    rewrite getUsers_insert_other; [apply IH|].
    apply getUserKey_not_USERS_KEY.
  - by apply deleteUser_usernames_trimmed.
  - by apply resetUserPassword_usernames_trimmed.
  - intros u. rewrite getUsers_insert_other; [apply IH|]. discriminate.
Qed.

(** The starter library has unique ids. *)
Lemma DEFAULT_LIBRARY_unique_ids :
  NoDup (WordPair.id <$> Scheduler.allWords DEFAULT_LIBRARY).
Proof. refine (bool_decide_unpack _ _). vm_compute. exact I. Qed.

End StoreFacts.

(** * The claims on the account store *)

Section StoreClaims.

Import StorageService.

Context {folding : JsString.CaseFolding}.

(** C6. [register] rejects a taken name whatever the case of its letters:
    when a stored username equals the given one up to case, [register]
    fails with [DuplicateUsername] and the storage, the user list
    included, is what it was.  The comparison is made on the trimmed
    name; stored names are trimmed in every storage the application
    produces ([reachable_usernames_trimmed]).  A second registration under
    a name that differs from the first in case only fails; so "bob" then
    "BOB" on an empty storage. *)
Theorem C6_register_rejects_duplicate :
  (∀ ls username password now_id now_created,
     (∃ u, u ∈ getUsers ls
           ∧ same_letters (User.username u) (JsString.trim username)) →
     register ls username password now_id now_created
     = (inl DuplicateUsername, ls))
  ∧ (∀ ls username password now_id now_created,
       usernames_trimmed ls →
       (∃ u, u ∈ getUsers ls ∧ same_letters (User.username u) username) →
       register ls username password now_id now_created
       = (inl DuplicateUsername, ls)
       ∧ getUsers (register ls username password now_id now_created).2
         = getUsers ls)
  ∧ (∀ ls name1 name2 password1 password2 t1 t2 t3 t4 u ls',
       same_letters (JsString.trim name1) (JsString.trim name2) →
       register ls name1 password1 t1 t2 = (inr u, ls') →
       register ls' name2 password2 t3 t4 = (inl DuplicateUsername, ls'))
  ∧ (∀ password1 password2 t1 t2 t3 t4,
       ∃ u ls',
         register ∅ "bob" password1 t1 t2 = (inr u, ls')
         ∧ register ls' "BOB" password2 t3 t4 = (inl DuplicateUsername, ls')).
Proof.
  assert (Hdup : ∀ ls username password now_id now_created,
            (∃ u, u ∈ getUsers ls
                  ∧ same_letters (User.username u) (JsString.trim username)) →
            register ls username password now_id now_created
            = (inl DuplicateUsername, ls)).
  { intros ls username password now_id now_created H.
    apply register_duplicate. by apply some_same_name. }
  assert (Hagain : ∀ ls name1 name2 password1 password2 t1 t2 t3 t4 u ls',
            same_letters (JsString.trim name1) (JsString.trim name2) →
            register ls name1 password1 t1 t2 = (inr u, ls') →
            register ls' name2 password2 t3 t4 = (inl DuplicateUsername, ls')).
  { intros ls name1 name2 password1 password2 t1 t2 t3 t4 u ls' Hsame Hreg.
    apply register_users in Hreg as [Husers Hname].
    apply Hdup. exists u. split.
    - rewrite Husers. apply elem_of_app. right. apply list_elem_of_here.
    - by rewrite Hname. }
  split; [exact Hdup|]. split; [|split; [exact Hagain|]].
  - intros ls username password now_id now_created Hinv (u & Hin & Hu).
    assert (Hreg : register ls username password now_id now_created
                   = (inl DuplicateUsername, ls)).
    { apply Hdup. exists u. split; [done|].
      apply same_letters_trimmed; [by apply Hinv|done]. }
    by rewrite Hreg.
  - intros password1 password2 t1 t2 t3 t4.
    destruct (register ∅ "bob" password1 t1 t2) as [[e|u] ls'] eqn:Hreg.
    + unfold register in Hreg. simpl in Hreg. discriminate.
    + exists u, ls'. split; [done|].
      apply (Hagain ∅ "bob" "BOB" password1 password2 t1 t2 t3 t4 u ls');
        [|done].
      by apply same_letters_ascii.
Qed.

Lemma password_rejected_true stored supplied :
  password_rejected stored supplied = true ↔
  ∃ p, stored = Some p ∧ p ≠ EmptyString ∧ supplied ≠ Some p.
Proof.
  unfold password_rejected. destruct stored as [p|].
  - rewrite andb_true_iff, js_truthy_true, negb_true_iff. split.
    + intros [Hp Hq]. exists p. split; [done|]. split; [done|].
      destruct supplied as [q|]; [|done].
      apply js_eqb_false in Hq. congruence.
    + intros (p' & [= <-] & Hp & Hq). split; [done|].
      destruct supplied as [q|]; [|done].
      apply js_eqb_false. congruence.
  - split; [done|]. by intros (p & ? & _).
Qed.

Lemma login_unfold ls username password :
  login ls username password
  = match matched_user ls (JsString.trim username) with
    | None => inl UserNotFound
    | Some user =>
        if password_rejected (User.password user) password
        then inl InvalidCredentials
        else inr user
    end.
Proof. reflexivity. Qed.

(** After [register("bob", "secret")] on an empty storage, whatever the
    case folding: [login] under "bob " (with a trailing space) returns
    the user, and no stored name is "bob " up to case. *)
Lemma login_trims_the_name :
  login StoreScenario.after_bob "bob " (Some "secret")
  = inr StoreScenario.bob
  ∧ ∀ u, u ∈ getUsers StoreScenario.after_bob →
         ¬ same_letters (User.username u) "bob ".
Proof.
  split.
  - rewrite login_unfold.
    assert (Hm : matched_user StoreScenario.after_bob (JsString.trim "bob ")
                 = Some StoreScenario.bob).
    { unfold matched_user.
      change (getUsers StoreScenario.after_bob) with [StoreScenario.bob].
      simpl find. by rewrite (proj2 (same_name_true _ _)). }
    by rewrite Hm.
  - intros u Hin.
    change (getUsers StoreScenario.after_bob) with [StoreScenario.bob] in Hin.
    apply list_elem_of_singleton in Hin as ->.
    rewrite same_letters_ascii by reflexivity. discriminate.
Qed.

(** C7, as amended.  [login] fails with [UserNotFound] exactly when no
    stored username equals the trimmed supplied name up to case; it fails
    with [InvalidCredentials] exactly when the matched user (the first
    such user) has a non-empty stored password different from the
    supplied one; a matched user without a password, or with the empty
    one, is returned for any supplied password, and so is a matched user
    whose password is the supplied one. *)
Theorem C7_login_outcomes ls username password :
  (login ls username password = inl UserNotFound ↔
   ∀ u, u ∈ getUsers ls →
        ¬ same_letters (User.username u) (JsString.trim username))
  ∧ (login ls username password = inl InvalidCredentials ↔
     ∃ u p, matched_user ls (JsString.trim username) = Some u
            ∧ User.password u = Some p ∧ p ≠ EmptyString ∧ password ≠ Some p)
  ∧ (∀ u, matched_user ls (JsString.trim username) = Some u →
          User.password u = None ∨ User.password u = Some EmptyString →
          login ls username password = inr u)
  ∧ (∀ u p, matched_user ls (JsString.trim username) = Some u →
            User.password u = Some p → password = Some p →
            login ls username password = inr u).
Proof.
  rewrite login_unfold, <- matched_user_None.
  destruct (matched_user ls (JsString.trim username)) as [user|] eqn:Hm.
  - destruct (password_rejected (User.password user) password) eqn:Hrej.
    + pose proof Hrej as (p & Hp & Hne & Hsup)%password_rejected_true.
      split; [done|]. split; [|split].
      * split; [|done]. intros _. by exists user, p.
      * intros u [= <-] [H|H]; rewrite H in Hp; congruence.
      * intros u p' [= <-] Hp' ->. congruence.
    + split; [done|]. split; [|split].
      * split; [done|]. intros (u & p & [= <-] & Hp & Hne & Hsup).
        assert (password_rejected (User.password user) password = true)
          by (apply password_rejected_true; eauto).
        congruence.
      * by intros u [= <-] _.
      * by intros u p [= <-] _ _.
  - split; [done|]. split; [|split].
    + split; [done|]. by intros (u & p & ? & _).
    + by intros u ?.
    + by intros u p ?.
Qed.

(** C8. For a name that no stored username equals up to case (after
    trimming), [register] returns a new user with the trimmed name, the
    given password, and an admin flag that is the membership of the
    trimmed name in the allow-list; the storage then holds the old user
    list followed by the new user, and under the key of the new id the
    starter library (five categories, sixteen words) with an empty
    history; every other key is untouched. *)
Theorem C8_register_creates_user ls username password now_id now_created :
  (∀ u, u ∈ getUsers ls →
        ¬ same_letters (User.username u) (JsString.trim username)) →
  ∃ newUser ls',
    register ls username password now_id now_created = (inr newUser, ls')
    ∧ User.id newUser = JsString.ofZ now_id
    ∧ User.username newUser = JsString.trim username
    ∧ User.password newUser = password
    ∧ User.createdAt newUser = now_created
    ∧ (User.isAdmin newUser = true ↔
       JsString.trim username ∈ ADMIN_IDENTIFIERS)
    ∧ getUsers ls' = getUsers ls ++ [newUser]
    ∧ loadUserData ls' (User.id newUser)
      = Some {| UserData.library := DEFAULT_LIBRARY; UserData.history := [] |}
    ∧ (∀ key, key ≠ USERS_KEY → key ≠ getUserKey (User.id newUser) →
              ls' !! key = ls !! key)
    ∧ DEFAULT_LIBRARY.*1
      = ["Food"; "Animals"; "School"; "Travel"; "Uncategorized"]
    ∧ length (Scheduler.allWords DEFAULT_LIBRARY) = 16%nat.
Proof.
  intros Hfresh%none_same_name.
  pose proof (register_fresh ls username password now_id now_created Hfresh)
    as Hreg. simpl in Hreg.
  eexists _, _. split; [exact Hreg|]. simpl.
  split; [done|]. split; [done|]. split; [done|]. split; [done|].
  split; [apply bool_decide_eq_true|].
  split.
  { rewrite getUsers_insert_other by apply getUserKey_not_USERS_KEY.
    apply getUsers_insert_users. }
  split.
  { apply (loadUserData_saveUserData _ (JsString.ofZ now_id)). }
  split.
  { intros key Hk1 Hk2. by rewrite !lookup_insert_ne. }
  split; reflexivity.
Qed.

(** C9. [deleteUser] leaves in the stored list exactly the users with
    another id, in their order, and removes the data kept for the id:
    [loadUserData] then returns [null] for it.  The data of every other id
    and the session are what they were. *)
Theorem C9_deleteUser_cascades ls target :
  getUsers (deleteUser ls target)
  = filter (λ u, User.id u ≠ target) (getUsers ls)
  ∧ (∀ u, u ∈ getUsers (deleteUser ls target) ↔
          u ∈ getUsers ls ∧ User.id u ≠ target)
  ∧ loadUserData (deleteUser ls target) target = None
  ∧ (∀ other, other ≠ target →
              loadUserData (deleteUser ls target) other
              = loadUserData ls other)
  ∧ getSession (deleteUser ls target) = getSession ls.
Proof.
  split; [apply deleteUser_users|]. split; [|split; [|split]].
  - intros u. rewrite deleteUser_users, list_elem_of_filter. tauto.
  - unfold loadUserData, deleteUser. by rewrite lookup_delete_eq.
  - intros other Hne. unfold loadUserData, deleteUser.
    rewrite lookup_delete_ne by (intros H; by apply getUserKey_inj in H).
    rewrite lookup_insert_ne; [done|].
    intros H. by apply (getUserKey_not_USERS_KEY other).
  - unfold getSession, deleteUser.
    rewrite lookup_delete_ne by apply getUserKey_not_CURRENT_USER_KEY.
    by rewrite lookup_insert_ne by apply USERS_KEY_not_CURRENT_USER_KEY.
Qed.

(** C10. [resetUserPassword] for an id that no stored user has changes
    nothing: the storage, and with it the user list and every password,
    is what it was, and no error is raised (the function is total). *)
Theorem C10_resetUserPassword_unknown_id ls target newPass :
  (∀ u, u ∈ getUsers ls → User.id u ≠ target) →
  resetUserPassword ls target newPass = ls
  ∧ getUsers (resetUserPassword ls target newPass) = getUsers ls.
Proof.
  intros Hnone.
  assert (Hfind : list_find (λ u, User.id u = target) (getUsers ls) = None).
  { apply list_find_None, Forall_forall. intros u Hin. by apply Hnone. }
  assert (Hsame : resetUserPassword ls target newPass = ls).
  { unfold resetUserPassword. by rewrite Hfind. }
  by rewrite Hsame.
Qed.

End StoreClaims.

(** The scenarios of the section above, on ASCII names and words. *)

Section StoreClaimsScenarios.

Import StorageService.

#[local] Existing Instance ascii_folding.

(** C6 after the registration of "bob": " Bob" and "BOB" are taken. *)
Lemma C6_witness :
  register StoreScenario.after_bob " Bob" None 1700000000001 1700000000001
  = (inl DuplicateUsername, StoreScenario.after_bob)
  ∧ register StoreScenario.after_bob "BOB" None 1700000000001 1700000000001
    = (inl DuplicateUsername, StoreScenario.after_bob).
Proof.
  split.
  - apply (proj1 C6_register_rejects_duplicate StoreScenario.after_bob
             " Bob" None 1700000000001 1700000000001).
    exists StoreScenario.bob. split; [|reflexivity].
    vm_compute. apply list_elem_of_here.
  - apply (proj1 (proj2 C6_register_rejects_duplicate)
             StoreScenario.after_bob "BOB" None 1700000000001 1700000000001).
    + apply register_usernames_trimmed, empty_usernames_trimmed.
    + exists StoreScenario.bob. split; [|reflexivity].
      vm_compute. apply list_elem_of_here.
Defined.

(** C7 after the registration of "bob": the right password opens the
    account under any case and with surrounding spaces. *)
Lemma C7_witness :
  login StoreScenario.after_bob " BOB " (Some "secret")
  = inr StoreScenario.bob.
Proof.
  apply (proj2 (proj2 (proj2
           (C7_login_outcomes StoreScenario.after_bob " BOB " (Some "secret"))))
           StoreScenario.bob "secret");
    reflexivity.
Defined.

(** C7 as it is stated fails: after [register("bob", "secret")], no
    stored username equals "bob " (with the trailing space) up to case,
    and yet [login("bob ", "secret")] returns the user.  The two facts
    hold for every case folding ([login_trims_the_name]). *)
Lemma C7_counterexample :
  ¬ (∀ ls username password,
       login ls username password = inl UserNotFound ↔
       ∀ u, u ∈ getUsers ls → ¬ same_letters (User.username u) username).
Proof.
  intros H.
  destruct login_trims_the_name as [Hlogin Hnone].
  destruct (H StoreScenario.after_bob "bob " (Some "secret")) as [_ Hback].
  rewrite (Hback Hnone) in Hlogin. discriminate Hlogin.
Qed.

(** C8 for a second user, whose name, typed after a space and before
    the ideographic space U+3000, is on the allow-list once trimmed. *)
Lemma C8_witness :
  ∃ newUser ls',
    register StoreScenario.after_bob " 13585556661　" None
      1700000000005 1700000000006
    = (inr newUser, ls')
    ∧ User.id newUser = "1700000000005"
    ∧ User.username newUser = "13585556661"
    ∧ User.isAdmin newUser = true
    ∧ getUsers ls' = [StoreScenario.bob; newUser]
    ∧ loadUserData ls' "1700000000005"
      = Some {| UserData.library := DEFAULT_LIBRARY; UserData.history := [] |}.
Proof.
  destruct (C8_register_creates_user StoreScenario.after_bob
              " 13585556661　" None 1700000000005 1700000000006)
    as (newUser & ls' & Hreg & Hid & Hname & Hpw & Hat & Hadmin & Husers
        & Hdata & _).
  - intros u Hin.
    change (getUsers StoreScenario.after_bob) with [StoreScenario.bob] in Hin.
    apply list_elem_of_singleton in Hin as ->. discriminate.
  - exists newUser, ls'. split; [exact Hreg|].
    split; [exact Hid|]. split; [exact Hname|].
    split; [apply Hadmin; vm_compute;
            apply list_elem_of_further, list_elem_of_here|].
    split; [exact Husers|].
    rewrite Hid in Hdata. exact Hdata.
Defined.

(** C9 on the storage that holds "bob" alone. *)
Lemma C9_witness :
  getUsers (deleteUser StoreScenario.after_bob "1700000000000") = []
  ∧ loadUserData (deleteUser StoreScenario.after_bob "1700000000000")
      "1700000000000" = None
  ∧ loadUserData (deleteUser StoreScenario.after_bob "42") "1700000000000"
    = loadUserData StoreScenario.after_bob "1700000000000".
Proof.
  split; [|split].
  - rewrite (proj1 (C9_deleteUser_cascades StoreScenario.after_bob
                      "1700000000000")).
    reflexivity.
  - apply (proj1 (proj2 (proj2 (C9_deleteUser_cascades
             StoreScenario.after_bob "1700000000000")))).
  - apply (proj1 (proj2 (proj2 (proj2 (C9_deleteUser_cascades
             StoreScenario.after_bob "42"))))).
    discriminate.
Defined.

(** C10 for the id "42", which no stored user has. *)
Lemma C10_witness :
  resetUserPassword StoreScenario.after_bob "42" "hunter2"
  = StoreScenario.after_bob
  ∧ getUsers (resetUserPassword StoreScenario.after_bob "42" "hunter2")
    = getUsers StoreScenario.after_bob.
Proof.
  apply (C10_resetUserPassword_unknown_id StoreScenario.after_bob "42"
           "hunter2").
  intros u Hin.
  change (getUsers StoreScenario.after_bob) with [StoreScenario.bob] in Hin.
  apply list_elem_of_singleton in Hin as ->. discriminate.
Defined.

End StoreClaimsScenarios.

(** * Further properties of the account store *)

Section StoreExtras.

Import StorageService.

Implicit Types (ls : gmap string Stored) (u : User.t).

Context {folding : JsString.CaseFolding}.

Lemma getSession_insert_other ls key v :
  key ≠ CURRENT_USER_KEY → getSession (<[key := v]> ls) = getSession ls.
Proof. intros Hne. unfold getSession. by rewrite lookup_insert_ne. Qed.

Lemma getSession_delete_other ls key :
  key ≠ CURRENT_USER_KEY → getSession (delete key ls) = getSession ls.
Proof. intros Hne. unfold getSession. by rewrite lookup_delete_ne. Qed.

Lemma loadUserData_insert_other ls key v userId :
  key ≠ getUserKey userId →
  loadUserData (<[key := v]> ls) userId = loadUserData ls userId.
Proof. intros Hne. unfold loadUserData. by rewrite lookup_insert_ne. Qed.

Lemma loadUserData_delete_other ls key userId :
  key ≠ getUserKey userId →
  loadUserData (delete key ls) userId = loadUserData ls userId.
Proof. intros Hne. unfold loadUserData. by rewrite lookup_delete_ne. Qed.

(** X1. The session slot gives back the user last saved and nothing
    after [clearSession]; saving or clearing the session changes neither
    the user list nor the data of any user. *)
Theorem X1_session_slot ls u :
  getSession (saveSession ls u) = Some u
  ∧ getSession (clearSession (saveSession ls u)) = None
  ∧ getUsers (saveSession ls u) = getUsers ls
  ∧ getUsers (clearSession ls) = getUsers ls
  ∧ (∀ userId, loadUserData (saveSession ls u) userId
               = loadUserData ls userId)
  ∧ (∀ userId, loadUserData (clearSession ls) userId
               = loadUserData ls userId).
Proof.
  unfold saveSession, clearSession.
  split; [unfold getSession; by rewrite lookup_insert_eq|].
  split; [unfold getSession; by rewrite lookup_delete_eq|].
  split; [by apply getUsers_insert_other|].
  split; [by apply getUsers_delete_other|].
  split; intros userId.
  - apply loadUserData_insert_other. intros H.
    by apply (getUserKey_not_CURRENT_USER_KEY userId).
  - apply loadUserData_delete_other. intros H.
    by apply (getUserKey_not_CURRENT_USER_KEY userId).
Qed.

(** X2. The data of a user is read back as it was saved (for a history
    whose scores JSON can write), a second save replaces the first, and a
    save for one id changes neither the data of another id, nor the user
    list, nor the session. *)
Theorem X2_user_data_slot ls userId data :
  json_safe data →
  loadUserData (saveUserData ls userId data) userId = Some data
  ∧ (∀ data', saveUserData (saveUserData ls userId data') userId data
              = saveUserData ls userId data)
  ∧ (∀ other, other ≠ userId →
              loadUserData (saveUserData ls userId data) other
              = loadUserData ls other)
  ∧ getUsers (saveUserData ls userId data) = getUsers ls
  ∧ getSession (saveUserData ls userId data) = getSession ls.
Proof.
  intros _. split; [apply loadUserData_saveUserData|].
  unfold saveUserData. split; [intros data'; apply insert_insert_eq|].
  split.
  - intros other Hne. apply loadUserData_insert_other.
    intros H. by apply getUserKey_inj in H.
  - split.
    + apply getUsers_insert_other, getUserKey_not_USERS_KEY.
    + apply getSession_insert_other, getUserKey_not_CURRENT_USER_KEY.
Qed.

(** The user matched under a name that no earlier user carries. *)
Lemma find_same_name_app name (users : list User.t) u :
  existsb (same_name name) users = false →
  same_name name u = true →
  find (same_name name) (users ++ [u]) = Some u.
Proof.
  intros Hnone Hu. induction users as [|v users IH]; simpl in *.
  - by rewrite Hu.
  - apply orb_false_iff in Hnone as [Hv Hrest]. rewrite Hv. by apply IH.
Qed.

Lemma find_same_name_ext name1 name2 (users : list User.t) :
  same_letters name1 name2 →
  find (same_name name1) users = find (same_name name2) users.
Proof. unfold same_name, same_letters. by intros ->. Qed.

Lemma password_rejected_same password : password_rejected password password = false.
Proof.
  destruct password as [p|]; simpl; [|done].
  unfold JsString.eqb. rewrite bool_decide_eq_true_2 by done.
  apply andb_false_r.
Qed.

(** X3. After a successful [register], [login] under the same name, in
    any case of the letters and with any white space around it, returns
    the new user for the registered password, for any password when the
    registered one is absent or empty, and fails with
    [InvalidCredentials] otherwise. *)
Theorem X3_register_then_login ls name password now_id now_created u ls'
    name' supplied :
  register ls name password now_id now_created = (inr u, ls') →
  same_letters (JsString.trim name') (JsString.trim name) →
  login ls' name' supplied
  = (if password_rejected password supplied
     then inl InvalidCredentials else inr u)
  ∧ login ls' name' password = inr u
  ∧ (password = None ∨ password = Some EmptyString →
     login ls' name' supplied = inr u).
Proof.
  intros Hreg Hsame.
  assert (Hlogin : ∀ pw, login ls' name' pw
            = if password_rejected password pw
              then inl InvalidCredentials else inr u).
  { intros pw. pose proof Hreg as [Husers Hname]%register_users.
    unfold register in Hreg.
    destruct (existsb _ _) eqn:Hex; [discriminate|].
    injection Hreg as Hu _.
    rewrite login_unfold. unfold matched_user.
    rewrite Husers, (find_same_name_ext _ _ _ Hsame).
    rewrite (find_same_name_app _ _ _ Hex).
    - by rewrite <- Hu.
    - apply same_name_true. by rewrite Hname. }
  split; [apply Hlogin|]. split.
  - by rewrite Hlogin, password_rejected_same.
  - intros [-> | ->]; by rewrite Hlogin.
Qed.

(** The user list after each write of the store. *)
Lemma register_users_cases ls username password now_id now_created :
  getUsers (register ls username password now_id now_created).2 = getUsers ls
  ∨ ∃ u, register ls username password now_id now_created
         = (inr u, (register ls username password now_id now_created).2)
         ∧ getUsers (register ls username password now_id now_created).2
           = getUsers ls ++ [u]
         ∧ User.username u = JsString.trim username
         ∧ User.password u = password
         ∧ User.isAdmin u
           = bool_decide (JsString.trim username ∈ ADMIN_IDENTIFIERS)
         ∧ ∀ v, v ∈ getUsers ls →
                ¬ same_letters (User.username v) (JsString.trim username).
Proof.
  destruct (existsb (same_name (JsString.trim username)) (getUsers ls))
    eqn:Hex.
  - left. by rewrite register_duplicate.
  - right. pose proof (register_fresh ls username password now_id now_created
                         Hex) as Hreg. simpl in Hreg.
    eexists. rewrite Hreg. simpl. split; [done|]. split.
    + rewrite getUsers_insert_other by apply getUserKey_not_USERS_KEY.
      apply getUsers_insert_users.
    + split; [done|]. split; [done|]. split; [done|].
      by apply none_same_name.
Qed.

Lemma fmap_alter_set_password {B} (f : User.t → B) newPass idx
    (users : list User.t) :
  (∀ u, f (set_password newPass u) = f u) →
  f <$> alter (set_password newPass) idx users = f <$> users.
Proof.
  intros Hf. rewrite (list_fmap_alter f _ id).
  - by apply list_alter_id.
  - apply Forall_forall. intros u _. apply Hf.
Qed.

Lemma empty_usernames_unique : usernames_unique ∅.
Proof.
  unfold usernames_unique, getUsers. rewrite lookup_empty. apply NoDup_nil_2.
Qed.

Lemma register_usernames_unique ls username password now_id now_created :
  usernames_unique ls →
  usernames_unique (register ls username password now_id now_created).2.
Proof.
  unfold usernames_unique. intros Hinv.
  destruct (register_users_cases ls username password now_id now_created)
    as [-> | (u & _ & -> & Hname & _ & _ & Hfresh)]; [done|].
  rewrite fmap_app. apply NoDup_app. split; [done|]. split.
  - intros x (v & -> & Hv)%list_elem_of_fmap Hx.
    apply list_elem_of_singleton in Hx. apply (Hfresh v Hv).
    unfold same_letters. by rewrite Hx, Hname.
  - apply NoDup_singleton.
Qed.

Lemma deleteUser_usernames_unique ls target :
  usernames_unique ls → usernames_unique (deleteUser ls target).
Proof.
  unfold usernames_unique. rewrite deleteUser_users. intros Hinv.
  eapply sublist_NoDup; [exact Hinv|].
  apply fmap_sublist, sublist_filter.
Qed.

Lemma resetUserPassword_usernames_unique ls target newPass :
  usernames_unique ls → usernames_unique (resetUserPassword ls target newPass).
Proof.
  unfold usernames_unique. rewrite resetUserPassword_users.
  destruct (fst <$> list_find _ _); [|done].
  by rewrite fmap_alter_set_password.
Qed.

Lemma reachable_usernames_unique ls : reachable ls → usernames_unique ls.
Proof.
  induction 1 as [|ls username password now_id now_created _ IH
                  |ls user _ IH|ls _ IH|ls userId data _ IH
                  |ls target _ IH|ls target newPass _ IH|ls text _ IH].
  - apply empty_usernames_unique.
  - by apply register_usernames_unique.
  - unfold usernames_unique, saveSession.
    by rewrite getUsers_insert_other.
  - unfold usernames_unique, clearSession.
    by rewrite getUsers_delete_other.
  - unfold usernames_unique, saveUserData.
    by rewrite getUsers_insert_other by apply getUserKey_not_USERS_KEY.
  - by apply deleteUser_usernames_unique.
  - by apply resetUserPassword_usernames_unique.
  - unfold usernames_unique. by rewrite getUsers_insert_other.
Qed.

(** Two stored users with the same name up to case are one user. *)
Lemma usernames_unique_same ls u v :
  usernames_unique ls →
  u ∈ getUsers ls → v ∈ getUsers ls →
  same_letters (User.username u) (User.username v) →
  u = v.
Proof.
  unfold usernames_unique, same_letters.
  intros Hnd [i Hi]%list_elem_of_lookup [j Hj]%list_elem_of_lookup Hsame.
  assert (i = j) as ->; [|congruence].
  eapply NoDup_lookup; [exact Hnd| |].
  - rewrite list_lookup_fmap, Hi. done.
  - rewrite list_lookup_fmap, Hj. simpl. by rewrite Hsame.
Qed.

Lemma matched_user_elem_of ls name u :
  matched_user ls name = Some u →
  u ∈ getUsers ls ∧ same_letters (User.username u) name.
Proof.
  intros (i & Hi & Hu & _)%matched_user_Some. split; [|done].
  by eapply list_elem_of_lookup_2.
Qed.

(** With unique names, the matched user is any stored user with the
    name. *)
Lemma usernames_unique_matched ls name u :
  usernames_unique ls →
  u ∈ getUsers ls → same_letters (User.username u) name →
  matched_user ls name = Some u.
Proof.
  intros Hnd Hin Hu.
  destruct (matched_user ls name) as [v|] eqn:Hm.
  - apply matched_user_elem_of in Hm as [Hv Hvn]. f_equal.
    apply (usernames_unique_same ls v u Hnd Hv Hin).
    unfold same_letters in *. congruence.
  - rewrite matched_user_None in Hm. by destruct (Hm u Hin).
Qed.

(** X4. In every storage that the application produces, the stored
    usernames are pairwise distinct up to case: two stored users with
    the same name are one user, and [login] matches the one stored user
    with the name. *)
Theorem X4_usernames_stay_unique ls :
  reachable ls →
  usernames_unique ls
  ∧ (∀ u v, u ∈ getUsers ls → v ∈ getUsers ls →
            same_letters (User.username u) (User.username v) → u = v)
  ∧ (∀ u name, u ∈ getUsers ls →
               same_letters (User.username u) (JsString.trim name) →
               matched_user ls (JsString.trim name) = Some u).
Proof.
  intros Hnd%reachable_usernames_unique. split; [done|]. split.
  - intros u v. by apply usernames_unique_same.
  - intros u name. by apply usernames_unique_matched.
Qed.

(** X5. In every storage that the application produces, the admin flag
    of a stored user is the membership of its name in the allow-list: no
    operation of the store grants or withdraws it. *)
Theorem X5_admin_flag_is_allow_list ls u :
  reachable ls → u ∈ getUsers ls →
  (User.isAdmin u = true ↔ User.username u ∈ ADMIN_IDENTIFIERS).
Proof.
  intros Hreach. revert u.
  assert (Hinv : ∀ u, u ∈ getUsers ls →
            User.isAdmin u = bool_decide (User.username u ∈ ADMIN_IDENTIFIERS)).
  { induction Hreach as [|ls username password now_id now_created _ IH
                  |ls user _ IH|ls _ IH|ls userId data _ IH
                  |ls target _ IH|ls target newPass _ IH|ls text _ IH];
      intros u.
    - unfold getUsers. rewrite lookup_empty. by intros ?%not_elem_of_nil.
    - destruct (register_users_cases ls username password now_id now_created)
        as [-> | (v & _ & -> & Hname & _ & Hadmin & _)]; [apply IH|].
      rewrite elem_of_app, list_elem_of_singleton. intros [Hu | ->];
        [by apply IH|]. by rewrite Hadmin, Hname.
    - unfold saveSession. rewrite getUsers_insert_other by done. apply IH.
    - unfold clearSession. rewrite getUsers_delete_other by done. apply IH.
    - unfold saveUserData.
      rewrite getUsers_insert_other by apply getUserKey_not_USERS_KEY.
      apply IH.
    - rewrite deleteUser_users, list_elem_of_filter. intros [_ Hu].
      by apply IH.
    - rewrite resetUserPassword_users.
      destruct (fst <$> list_find _ _) as [idx|]; [|apply IH].
      intros [j Hj]%list_elem_of_lookup. rewrite list_lookup_alter in Hj.
      case_decide.
      + apply fmap_Some in Hj as (v & Hv & ->). simpl.
        apply IH. by eapply list_elem_of_lookup_2.
      + apply IH. by eapply list_elem_of_lookup_2.
    - rewrite getUsers_insert_other by done. apply IH. }
  intros u Hu. rewrite (Hinv u Hu). apply bool_decide_eq_true.
Qed.

Lemma resetUserPassword_found ls target newPass idx u :
  list_find (λ v, User.id v = target) (getUsers ls) = Some (idx, u) →
  getUsers (resetUserPassword ls target newPass)
  = <[idx := set_password newPass u]> (getUsers ls).
Proof.
  intros Hfind. rewrite resetUserPassword_users, Hfind. simpl.
  apply list_find_Some in Hfind as (Hidx & _ & _).
  apply list_eq. intros j. rewrite list_lookup_alter.
  case_decide as Hj.
  - subst j. rewrite Hidx. simpl. symmetry.
    apply list_lookup_insert_eq. by eapply lookup_lt_Some.
  - by rewrite list_lookup_insert_ne.
Qed.

(** X6. [resetUserPassword] for an id that a stored user has rewrites
    the first user with the id and no other: its password is the new one,
    its id, name, creation time and admin flag are kept, and the data of
    every user and the session are what they were. *)
Theorem X6_resetUserPassword_known_id ls target newPass idx u :
  list_find (λ v, User.id v = target) (getUsers ls) = Some (idx, u) →
  ∃ u',
    getUsers (resetUserPassword ls target newPass) = <[idx := u']> (getUsers ls)
    ∧ getUsers (resetUserPassword ls target newPass) !! idx = Some u'
    ∧ User.password u' = Some newPass
    ∧ User.id u' = target
    ∧ User.username u' = User.username u
    ∧ User.createdAt u' = User.createdAt u
    ∧ User.isAdmin u' = User.isAdmin u
    ∧ (∀ userId, loadUserData (resetUserPassword ls target newPass) userId
                 = loadUserData ls userId)
    ∧ getSession (resetUserPassword ls target newPass) = getSession ls.
Proof.
  intros Hfind. exists (set_password newPass u).
  pose proof (resetUserPassword_found ls target newPass idx u Hfind) as Husers.
  pose proof Hfind as (Hidx & Hid & _)%list_find_Some.
  split; [done|]. split.
  { rewrite Husers. apply list_lookup_insert_eq. by eapply lookup_lt_Some. }
  split; [done|]. split; [done|]. split; [done|]. split; [done|].
  split; [done|].
  unfold resetUserPassword. rewrite Hfind. simpl. split.
  - intros userId. apply loadUserData_insert_users.
  - apply getSession_insert_other, USERS_KEY_not_CURRENT_USER_KEY.
Qed.

(** X7. After a password reset of the user stored under a name, [login]
    under that name returns the user, with the new password on record,
    for the new password and fails with [InvalidCredentials] for every
    other one.  The names are unique, as in every storage the
    application produces, and the new password is not empty. *)
Theorem X7_reset_then_login ls target newPass idx u name :
  usernames_unique ls →
  list_find (λ v, User.id v = target) (getUsers ls) = Some (idx, u) →
  same_letters (User.username u) (JsString.trim name) →
  newPass ≠ EmptyString →
  login (resetUserPassword ls target newPass) name (Some newPass)
  = inr (set_password newPass u)
  ∧ (∀ supplied, supplied ≠ Some newPass →
       login (resetUserPassword ls target newPass) name supplied
       = inl InvalidCredentials).
Proof.
  intros Hnd Hfind Hname Hne.
  pose proof (resetUserPassword_found ls target newPass idx u Hfind) as Husers.
  pose proof Hfind as (Hidx & _ & _)%list_find_Some.
  assert (Hm : matched_user (resetUserPassword ls target newPass)
                 (JsString.trim name) = Some (set_password newPass u)).
  { apply usernames_unique_matched.
    - by apply resetUserPassword_usernames_unique.
    - rewrite Husers. eapply list_elem_of_lookup_2.
      apply list_lookup_insert_eq. by eapply lookup_lt_Some.
    - done. }
  rewrite !login_unfold, Hm. split.
  - by rewrite password_rejected_same.
  - intros supplied Hsup. rewrite login_unfold, Hm.
    assert (password_rejected (User.password (set_password newPass u)) supplied
            = true) as ->; [|done].
    apply password_rejected_true. by exists newPass.
Qed.

(** X8. Once the user that [login] matches under a name is deleted,
    [login] under the name fails with [UserNotFound] and the name can be
    registered again.  The names are unique, as in every storage the
    application produces. *)
Theorem X8_delete_then_login ls name u supplied password now_id now_created :
  usernames_unique ls →
  matched_user ls (JsString.trim name) = Some u →
  login (deleteUser ls (User.id u)) name supplied = inl UserNotFound
  ∧ ∃ v ls',
      register (deleteUser ls (User.id u)) name password now_id now_created
      = (inr v, ls')
      ∧ User.username v = JsString.trim name.
Proof.
  intros Hnd [Hu Hname]%matched_user_elem_of.
  assert (Hnone : ∀ v, v ∈ getUsers (deleteUser ls (User.id u)) →
            ¬ same_letters (User.username v) (JsString.trim name)).
  { intros v. rewrite deleteUser_users, list_elem_of_filter.
    intros [Hid Hv] Hvn. apply Hid. f_equal.
    apply (usernames_unique_same ls v u Hnd Hv Hu).
    unfold same_letters in *. congruence. }
  split.
  - rewrite login_unfold.
    by apply matched_user_None in Hnone as ->.
  - apply none_same_name in Hnone.
    pose proof (register_fresh _ name password now_id now_created Hnone)
      as Hreg. simpl in Hreg. eexists _, _. split; [exact Hreg|done].
Qed.

Lemma deleteUser_lookup ls target key :
  deleteUser ls target !! key
  = if decide (key = getUserKey target) then None
    else if decide (key = USERS_KEY)
         then Some (JUsers (filter (λ u, User.id u ≠ target) (getUsers ls)))
         else ls !! key.
Proof.
  unfold deleteUser. case_decide as Hk.
  - subst key. apply lookup_delete_eq.
  - rewrite lookup_delete_ne by done. case_decide as Hu.
    + subst key. apply lookup_insert_eq.
    + by rewrite lookup_insert_ne.
Qed.

(** X9. Deleting a user twice is deleting it once, and two deletions
    can be made in either order. *)
Theorem X9_deleteUser_idempotent ls a b :
  deleteUser (deleteUser ls a) a = deleteUser ls a
  ∧ deleteUser (deleteUser ls a) b = deleteUser (deleteUser ls b) a.
Proof.
  split; apply map_eq; intros key; rewrite !deleteUser_lookup,
    !deleteUser_users.
  - rewrite list_filter_filter_l by done.
    repeat case_decide; done.
  - rewrite !list_filter_filter.
    rewrite (list_filter_iff (λ u, User.id u ≠ b ∧ User.id u ≠ a)
               (λ u, User.id u ≠ a ∧ User.id u ≠ b)) by tauto.
    repeat case_decide; try done; subst key; exfalso;
      by eapply getUserKey_not_USERS_KEY.
Qed.

End StoreExtras.

(** The scenarios of the section above, on ASCII names and words. *)

Section StoreExtrasScenarios.

Import StorageService.
Implicit Types (ls : gmap string Stored) (u : User.t).

#[local] Existing Instance ascii_folding.

(** X2 for the starter data of "bob". *)
Lemma X2_witness :
  loadUserData
    (saveUserData ∅ "7"
       {| UserData.library := DEFAULT_LIBRARY; UserData.history := [] |}) "7"
  = Some {| UserData.library := DEFAULT_LIBRARY; UserData.history := [] |}.
Proof.
  apply (X2_user_data_slot ∅ "7"
           {| UserData.library := DEFAULT_LIBRARY; UserData.history := [] |}).
  apply Forall_nil_2.
Defined.

(** X3 on the empty storage: "bob" registers and logs in as " BOB". *)
Lemma X3_witness :
  login StoreScenario.after_bob " BOB" (Some "secret")
  = inr StoreScenario.bob.
Proof.
  assert (Hreg : register ∅ "bob" (Some "secret") 1700000000000 1700000000000
                 = (inr StoreScenario.bob, StoreScenario.after_bob))
    by (vm_compute; reflexivity).
  assert (Hsame : same_letters (JsString.trim " BOB") (JsString.trim "bob"))
    by reflexivity.
  apply (proj1 (proj2
           (X3_register_then_login ∅ "bob" (Some "secret")
              1700000000000 1700000000000 StoreScenario.bob
              StoreScenario.after_bob " BOB" None Hreg Hsame))).
Defined.

(** X4 after the registration of "bob". *)
Lemma X4_witness : usernames_unique StoreScenario.after_bob.
Proof.
  apply (X4_usernames_stay_unique StoreScenario.after_bob).
  apply reach_register, reach_empty.
Defined.

(** X5 for "bob", who is not on the allow-list. *)
Lemma X5_witness :
  User.isAdmin StoreScenario.bob = true
  ↔ User.username StoreScenario.bob ∈ ADMIN_IDENTIFIERS.
Proof.
  apply (X5_admin_flag_is_allow_list StoreScenario.after_bob).
  - apply reach_register, reach_empty.
  - vm_compute. apply list_elem_of_here.
Defined.

(** X6 for the id of "bob". *)
Lemma X6_witness :
  ∃ u',
    getUsers (resetUserPassword StoreScenario.after_bob "1700000000000" "new")
    = [u']
    ∧ User.password u' = Some "new"
    ∧ User.username u' = "bob".
Proof.
  destruct (X6_resetUserPassword_known_id StoreScenario.after_bob
              "1700000000000" "new" 0%nat StoreScenario.bob)
    as (u' & Husers & _ & Hpw & _ & Hname & _); [by vm_compute|].
  exists u'. split; [exact Husers|]. split; [exact Hpw|exact Hname].
Defined.

(** X7 for "bob": the new password opens the account, the old one does
    not. *)
Lemma X7_witness :
  login (resetUserPassword StoreScenario.after_bob "1700000000000" "new")
    "Bob" (Some "new")
  = inr (set_password "new" StoreScenario.bob)
  ∧ login (resetUserPassword StoreScenario.after_bob "1700000000000" "new")
      "Bob" (Some "secret")
    = inl InvalidCredentials.
Proof.
  destruct (X7_reset_then_login StoreScenario.after_bob "1700000000000" "new"
              0%nat StoreScenario.bob "Bob") as [Hnew Hold].
  - apply reachable_usernames_unique, reach_register, reach_empty.
  - by vm_compute.
  - reflexivity.
  - discriminate.
  - split; [exact Hnew|]. apply Hold. discriminate.
Defined.

(** X8 for "bob". *)
Lemma X8_witness :
  login (deleteUser StoreScenario.after_bob "1700000000000") "bob"
    (Some "secret")
  = inl UserNotFound.
Proof.
  apply (X8_delete_then_login StoreScenario.after_bob "bob" StoreScenario.bob
           (Some "secret") None 0 0).
  - apply reachable_usernames_unique, reach_register, reach_empty.
  - reflexivity.
Defined.

End StoreExtrasScenarios.

(** * Properties of the login form, the session and the effects of App *)

Section AppExtras.

Import StorageService.

Implicit Types (ls : gmap string Stored) (u : User.t) (st : AppState.t).

Context {folding : JsString.CaseFolding}.

Lemma blank_false s : AuthScreen.blank s = false → s ≠ EmptyString.
Proof.
  unfold AuthScreen.blank. intros H%negb_false_iff%js_truthy_true ->.
  by apply H.
Qed.

(** The three ways [handleSubmit] leaves the storage: untouched (a blank
    field, a failed login, a taken name), with the session of a user
    logged in, or with a new user and its session. *)
Lemma handleSubmit_cases ls isLogin username password now_id now_created :
  (AuthScreen.handleSubmit ls isLogin username password now_id now_created).2
  = ls
  ∨ (∃ u, isLogin = true
          ∧ login ls username (Some password) = inr u
          ∧ AuthScreen.handleSubmit ls isLogin username password
              now_id now_created
            = (inr u, saveSession ls u))
  ∨ (∃ u ls', isLogin = false
              ∧ AuthScreen.blank password = false
              ∧ register ls username (Some password) now_id now_created
                = (inr u, ls')
              ∧ AuthScreen.handleSubmit ls isLogin username password
                  now_id now_created
                = (inr u, saveSession ls' u)).
Proof.
  unfold AuthScreen.handleSubmit.
  destruct (AuthScreen.blank username) eqn:Hbu; [by left|].
  destruct (AuthScreen.blank password) eqn:Hbp; [by left|]. simpl.
  destruct isLogin.
  - destruct (login ls username (Some password)) as [e|u] eqn:Hl;
      [by left|]. right. left. by exists u.
  - destruct (register ls username (Some password) now_id now_created)
      as [[e|u] ls'] eqn:Hr.
    + left. simpl. unfold register in Hr.
      destruct (existsb _ _); [|discriminate]. by injection Hr as _ <-.
    + right. right. by exists u, ls'.
Qed.

Lemma ui_reachable_reachable ls : ui_reachable ls → reachable ls.
Proof.
  induction 1 as [|ls isLogin username password now_id now_created _ IH
                  |ls st _ IH|ls st _ IH|ls confirmed target _ IH
                  |ls answer target _ IH|ls text _ IH].
  - apply reach_empty.
  - destruct (handleSubmit_cases ls isLogin username password now_id
                now_created)
      as [-> | [(u & _ & _ & ->) | (u & ls' & _ & _ & Hreg & ->)]];
      [done| |]; simpl; apply reach_saveSession; [done|].
    assert (ls' = (register ls username (Some password) now_id now_created).2)
      as -> by (by rewrite Hreg).
    by apply reach_register.
  - by apply reach_clearSession.
  - unfold App.persist. destruct (AppState.user st); [|done].
    by apply reach_saveUserData.
  - destruct confirmed; [|done]. by apply reach_deleteUser.
  - unfold AdminDashboard.handleResetPassword.
    destruct answer as [p|]; [|done]. destruct (JsString.truthy p); [|done].
    by apply reach_resetUserPassword.
  - by apply reach_daily_content.
Qed.

Lemma ui_reachable_passwords_set ls : ui_reachable ls → passwords_set ls.
Proof.
  induction 1 as [|ls isLogin username password now_id now_created _ IH
                  |ls st _ IH|ls st _ IH|ls confirmed target _ IH
                  |ls answer target _ IH|ls text _ IH]; intros v.
  - unfold getUsers. rewrite lookup_empty. by intros ?%not_elem_of_nil.
  - destruct (handleSubmit_cases ls isLogin username password now_id
                now_created)
      as [-> | [(u & _ & _ & ->) | (u & ls' & _ & Hbp & Hreg & ->)]];
      [apply IH| |]; simpl; unfold saveSession;
      rewrite getUsers_insert_other by done; [apply IH|].
    destruct (register_users_cases ls username (Some password) now_id
                now_created) as [Hsame | (u' & Hreg' & Husers & _ & Hpw & _)];
      rewrite Hreg in *; simpl in *.
    + rewrite Hsame. apply IH.
    + rewrite Husers, elem_of_app, list_elem_of_singleton.
      intros [Hv | ->]; [by apply IH|].
      exists password. split; [done|]. by apply blank_false.
  - simpl. unfold clearSession. rewrite getUsers_delete_other by done.
    apply IH.
  - unfold App.persist. destruct (AppState.user st); [|apply IH].
    unfold saveUserData.
    rewrite getUsers_insert_other by apply getUserKey_not_USERS_KEY.
    apply IH.
  - destruct confirmed; [|apply IH]. simpl.
    rewrite deleteUser_users, list_elem_of_filter. intros [_ Hv].
    by apply IH.
  - unfold AdminDashboard.handleResetPassword.
    destruct answer as [p|]; [|apply IH].
    destruct (JsString.truthy p) eqn:Hp; [|apply IH].
    rewrite resetUserPassword_users.
    destruct (fst <$> list_find _ _) as [idx|]; [|apply IH].
    intros [j Hj]%list_elem_of_lookup. rewrite list_lookup_alter in Hj.
    case_decide.
    + apply fmap_Some in Hj as (w & Hw & ->). exists p. split; [done|].
      by apply js_truthy_true.
    + apply IH. by eapply list_elem_of_lookup_2.
  - rewrite getUsers_insert_other by done. apply IH.
Qed.

(** X10. In every storage that the screens produce, each stored user has
    a password that is not empty, and [login] returns a user only for
    the exact stored password: the branch of [login] that accepts any
    password is never taken. *)
Theorem X10_screens_always_check_password ls name supplied u :
  ui_reachable ls →
  login ls name supplied = inr u →
  u ∈ getUsers ls
  ∧ ∃ p, p ≠ EmptyString ∧ User.password u = Some p ∧ supplied = Some p.
Proof.
  intros Hpw%ui_reachable_passwords_set. rewrite login_unfold.
  destruct (matched_user ls (JsString.trim name)) as [v|] eqn:Hm;
    [|discriminate].
  destruct (password_rejected (User.password v) supplied) eqn:Hrej;
    [discriminate|]. intros [= <-].
  apply matched_user_elem_of in Hm as [Hin _]. split; [done|].
  destruct (Hpw v Hin) as (p & Hp & Hne). exists p. split; [done|].
  split; [done|]. rewrite Hp in Hrej. simpl in Hrej.
  apply andb_false_iff in Hrej as [Hrej|Hrej].
  - apply js_truthy_true in Hne. congruence.
  - apply negb_false_iff in Hrej. destruct supplied as [q|]; [|done].
    apply js_eqb_true in Hrej. by subst.
Qed.

(** X11. A registration through the form leaves the new user in the
    session; [handleLogin], then and on every later mount of [App] on the
    same storage, loads the starter library with an empty history and
    the first five starter words as active words. *)
Theorem X11_register_then_open ls username password now_id now_created
    u ls' st :
  AuthScreen.handleSubmit ls false username password now_id now_created
  = (inr u, ls') →
  getSession ls' = Some u
  ∧ App.mount ls' st = App.handleLogin ls' u st
  ∧ App.handleLogin ls' u st
    = {| AppState.user := Some u;
         AppState.mode := SETUP;
         AppState.activeWords := take 5 (Scheduler.allWords DEFAULT_LIBRARY);
         AppState.library := DEFAULT_LIBRARY;
         AppState.testHistory := [] |}
  ∧ WordPair.id <$> take 5 (Scheduler.allWords DEFAULT_LIBRARY)
    = ["def-1"; "def-2"; "def-3"; "def-4"; "def-5"].
Proof.
  intros Hsub. unfold AuthScreen.handleSubmit in Hsub.
  destruct (_ || _); [discriminate|].
  destruct (register ls username (Some password) now_id now_created)
    as [[e|v] ls1] eqn:Hreg; [discriminate|].
  injection Hsub as <- <-.
  assert (Hsess : getSession (saveSession ls1 v) = Some v).
  { unfold getSession, saveSession. by rewrite lookup_insert_eq. }
  assert (Hdata : loadUserData (saveSession ls1 v) (User.id v)
            = Some {| UserData.library := DEFAULT_LIBRARY;
                      UserData.history := [] |}).
  { unfold saveSession. rewrite loadUserData_insert_other
      by apply not_eq_sym, getUserKey_not_CURRENT_USER_KEY.
    unfold register in Hreg. destruct (existsb _ _); [discriminate|].
    injection Hreg as <- <-. apply loadUserData_saveUserData. }
  split; [done|]. split.
  - unfold App.mount. by rewrite Hsess.
  - split; [|reflexivity]. unfold App.handleLogin. by rewrite Hdata.
Qed.

(** What [deleteUser] leaves behind for the deleted id. *)
Lemma deleteUser_leftovers ls target :
  getUsers (deleteUser ls target)
  = filter (λ u, User.id u ≠ target) (getUsers ls)
  ∧ loadUserData (deleteUser ls target) target = None
  ∧ getSession (deleteUser ls target) = getSession ls.
Proof.
  split; [apply deleteUser_users|]. split.
  - unfold loadUserData. by rewrite deleteUser_lookup, decide_True.
  - unfold getSession. rewrite deleteUser_lookup.
    rewrite decide_False by apply not_eq_sym, getUserKey_not_CURRENT_USER_KEY.
    by rewrite decide_False by apply not_eq_sym, USERS_KEY_not_CURRENT_USER_KEY.
Qed.

(** X12. [deleteUser] does not end the session of the deleted user.
    When [App] next mounts on the storage, the stored session is logged
    in with the one empty category, and the effect that saves the state
    writes a data slot for the deleted id again; the user stays out of
    the user list. *)
Theorem X12_deleted_user_session_survives ls u st :
  getSession ls = Some u →
  getSession (deleteUser ls (User.id u)) = Some u
  ∧ App.mount (deleteUser ls (User.id u)) st
    = {| AppState.user := Some u;
         AppState.mode := SETUP;
         AppState.activeWords := [];
         AppState.library := [("Uncategorized", [])];
         AppState.testHistory := [] |}
  ∧ loadUserData
      (App.persist (deleteUser ls (User.id u))
         (App.mount (deleteUser ls (User.id u)) st))
      (User.id u)
    = Some {| UserData.library := [("Uncategorized", [])];
              UserData.history := [] |}
  ∧ (∀ v, v ∈ getUsers
            (App.persist (deleteUser ls (User.id u))
               (App.mount (deleteUser ls (User.id u)) st)) →
          User.id v ≠ User.id u).
Proof.
  intros Hsess.
  destruct (deleteUser_leftovers ls (User.id u)) as (Husers & Hgone & Hsame).
  assert (Hs : getSession (deleteUser ls (User.id u)) = Some u)
    by (by rewrite Hsame).
  assert (Hm : App.mount (deleteUser ls (User.id u)) st
            = {| AppState.user := Some u;
                 AppState.mode := SETUP;
                 AppState.activeWords := [];
                 AppState.library := [("Uncategorized", [])];
                 AppState.testHistory := [] |}).
  { unfold App.mount, App.handleLogin. by rewrite Hs, Hgone. }
  split; [done|]. split; [done|]. rewrite Hm. unfold App.persist. simpl.
  split; [apply loadUserData_saveUserData|].
  intros v. unfold saveUserData.
  rewrite getUsers_insert_other by apply getUserKey_not_USERS_KEY.
  rewrite Husers, list_elem_of_filter. tauto.
Qed.

(** X13. Logging out clears the session and the state of [App] without
    touching what is stored: the saving effect does nothing while no user
    is logged in, so the emptied library is never written, and the user
    list and the data of every user are what they were.  A later mount
    stays logged out. *)
Theorem X13_logout_keeps_stored_data ls st :
  getSession (App.handleLogout ls st).1 = None
  ∧ App.persist (App.handleLogout ls st).1 (App.handleLogout ls st).2
    = (App.handleLogout ls st).1
  ∧ getUsers (App.handleLogout ls st).1 = getUsers ls
  ∧ (∀ userId, loadUserData (App.handleLogout ls st).1 userId
               = loadUserData ls userId)
  ∧ App.mount (App.handleLogout ls st).1 (App.handleLogout ls st).2
    = (App.handleLogout ls st).2.
Proof.
  simpl. unfold clearSession.
  assert (Hs : getSession (delete CURRENT_USER_KEY ls) = None).
  { unfold getSession. by rewrite lookup_delete_eq. }
  split; [done|]. split; [done|].
  split; [by apply getUsers_delete_other|]. split.
  - intros userId. apply loadUserData_delete_other.
    apply not_eq_sym, getUserKey_not_CURRENT_USER_KEY.
  - unfold App.mount. by rewrite Hs.
Qed.

(** X14. Logging in a user whose data is stored writes nothing new: the
    saving effect that follows [handleLogin] leaves the storage as it
    is. *)
Theorem X14_login_then_persist ls u st data :
  loadUserData ls (User.id u) = Some data →
  App.persist ls (App.handleLogin ls u st) = ls.
Proof.
  intros Hdata. unfold App.handleLogin, App.persist. rewrite Hdata. simpl.
  unfold saveUserData. apply insert_id.
  unfold loadUserData in Hdata.
  destruct (ls !! getUserKey (User.id u)) as [[| |d|]|]; try done.
  destruct data, d. by simplify_eq/=.
Qed.

End AppExtras.

(** The scenarios of the section above, on ASCII names and words. *)

Section AppExtrasScenarios.

Import StorageService.
Implicit Types (ls : gmap string Stored) (u : User.t) (st : AppState.t).

#[local] Existing Instance ascii_folding.

(** X10 after "bob" has registered through the form. *)
Lemma X10_witness :
  StoreScenario.bob ∈ getUsers
    (AuthScreen.handleSubmit ∅ false "bob" "secret"
       1700000000000 1700000000000).2
  ∧ ∃ p, p ≠ EmptyString ∧ User.password StoreScenario.bob = Some p
         ∧ Some "secret" = Some p.
Proof.
  apply (X10_screens_always_check_password _ "bob" (Some "secret")).
  - apply ui_handleSubmit, ui_empty.
  - reflexivity.
Defined.

(** X11 for "bob" on an empty storage. *)
Lemma X11_witness :
  getSession (saveSession StoreScenario.after_bob StoreScenario.bob)
  = Some StoreScenario.bob.
Proof.
  apply (X11_register_then_open ∅ "bob" "secret" 1700000000000 1700000000000
           StoreScenario.bob
           (saveSession StoreScenario.after_bob StoreScenario.bob)
           {| AppState.user := None; AppState.mode := SETUP;
              AppState.activeWords := []; AppState.library := [];
              AppState.testHistory := [] |}).
  vm_compute. reflexivity.
Defined.

(** X12 after "bob", whose session is open, is deleted. *)
Lemma X12_witness :
  getSession
    (deleteUser (saveSession StoreScenario.after_bob StoreScenario.bob)
       (User.id StoreScenario.bob))
  = Some StoreScenario.bob.
Proof.
  apply (X12_deleted_user_session_survives
           (saveSession StoreScenario.after_bob StoreScenario.bob)
           StoreScenario.bob
           {| AppState.user := None; AppState.mode := SETUP;
              AppState.activeWords := []; AppState.library := [];
              AppState.testHistory := [] |}).
  reflexivity.
Defined.

(** X14 for "bob" and his starter library. *)
Lemma X14_witness :
  App.persist StoreScenario.after_bob
    (App.handleLogin StoreScenario.after_bob StoreScenario.bob
       {| AppState.user := None; AppState.mode := SETUP;
          AppState.activeWords := []; AppState.library := [];
          AppState.testHistory := [] |})
  = StoreScenario.after_bob.
Proof.
  apply (X14_login_then_persist StoreScenario.after_bob StoreScenario.bob _
           {| UserData.library := DEFAULT_LIBRARY; UserData.history := [] |}).
  reflexivity.
Defined.

End AppExtrasScenarios.

(** * Properties of the admin dashboard *)

Section AdminExtras.

Import StorageService.

Implicit Types (ls : gmap string Stored) (u : User.t).

Context {folding : JsString.CaseFolding}.

Lemma sum_of_lengths {A} (ls : list (list A)) (acc : Z) :
  fold_left (λ acc arr, acc + Z.of_nat (length arr)) ls acc
  = acc + Z.of_nat (length (concat ls)).
Proof.
  revert acc. induction ls as [|l ls IH]; intros acc; simpl; [lia|].
  rewrite IH, length_app. lia.
Qed.

Lemma stat_of_user ls u : AdminDashboard.user (AdminDashboard.stat_of ls u) = u.
Proof. reflexivity. Qed.

(** X15. The table of the dashboard has one row for each stored user, in
    the stored order.  A user with stored data is shown with the number of
    words of all its categories and the number of its tests, and with
    'Never' while its history is empty; a user without stored data is
    shown with 0 words, 0 tests and 'Never'. *)
Theorem X15_dashboard_rows ls :
  AdminDashboard.user <$> AdminDashboard.loadUsers ls = getUsers ls
  ∧ ∀ row, row ∈ AdminDashboard.loadUsers ls →
      match loadUserData ls (User.id (AdminDashboard.user row)) with
      | Some data =>
          AdminDashboard.wordCount row
          = Z.of_nat (length (Scheduler.allWords (UserData.library data)))
          ∧ AdminDashboard.testCount row
            = Z.of_nat (length (UserData.history data))
          ∧ (UserData.history data = [] → AdminDashboard.lastActive row = None)
      | None =>
          AdminDashboard.wordCount row = 0
          ∧ AdminDashboard.testCount row = 0
          ∧ AdminDashboard.lastActive row = None
      end.
Proof.
  unfold AdminDashboard.loadUsers. split.
  - rewrite <- list_fmap_compose. apply list_fmap_id.
  - intros row (u & -> & _)%list_elem_of_fmap. simpl.
    destruct (loadUserData ls (User.id u)) as [data|]; [|done].
    split; [|split; [done|]].
    + unfold Scheduler.allWords. by rewrite sum_of_lengths.
    + by intros ->.
Qed.

(** X16. A user just registered is the last row of the table, with the
    16 words of the starter library, no test and 'Never'; after
    [deleteUser] no row has the deleted id. *)
Theorem X16_dashboard_after_register ls username password now_id now_created
    u ls' :
  register ls username password now_id now_created = (inr u, ls') →
  last (AdminDashboard.loadUsers ls')
  = Some {| AdminDashboard.user := u;
            AdminDashboard.wordCount := 16;
            AdminDashboard.testCount := 0;
            AdminDashboard.lastActive := None |}
  ∧ ∀ row, row ∈ AdminDashboard.loadUsers (deleteUser ls' (User.id u)) →
           User.id (AdminDashboard.user row) ≠ User.id u.
Proof.
  intros Hreg. pose proof Hreg as [Husers _]%register_users. split.
  - unfold AdminDashboard.loadUsers. rewrite Husers, fmap_app. simpl.
    rewrite last_snoc. f_equal. unfold AdminDashboard.stat_of.
    unfold register in Hreg. destruct (existsb _ _); [discriminate|].
    injection Hreg as <- <-. simpl.
    by rewrite (loadUserData_saveUserData _ (JsString.ofZ now_id)).
  - intros row. unfold AdminDashboard.loadUsers.
    rewrite deleteUser_users.
    intros (v & -> & Hv)%list_elem_of_fmap. simpl.
    by apply list_elem_of_filter in Hv as [Hid _].
Qed.

Lemma prefix_app (sub s : string) :
  String.prefix sub s = true ↔ ∃ post, s = String.append sub post.
Proof.
  revert sub. induction s as [|b s IH]; intros [|a sub]; simpl.
  - split; [by exists EmptyString|done].
  - split; [done|]. by intros (post & ?).
  - split; [by exists (String b s)|done].
  - destruct (Ascii.ascii_dec a b) as [->|Hne].
    + rewrite IH. split; intros (post & Hpost); exists post.
      * by rewrite Hpost.
      * by injection Hpost.
    + split; [done|]. intros (post & Hpost). by injection Hpost.
Qed.

Lemma includes_unfold (s sub : string) :
  AdminDashboard.includes s sub
  = if String.prefix sub s then true
    else match s with
         | EmptyString => false
         | String _ s' => AdminDashboard.includes s' sub
         end.
Proof. by destruct s. Qed.

(** [includes] finds the text wherever it occurs. *)
Lemma includes_app (s sub : string) :
  AdminDashboard.includes s sub = true ↔
  ∃ pre post, s = String.append pre (String.append sub post).
Proof.
  induction s as [|a s IH]; rewrite includes_unfold.
  - destruct (String.prefix sub EmptyString) eqn:Hp.
    + split; [|done]. intros _. apply prefix_app in Hp as (post & Hpost).
      by exists EmptyString, post.
    + split; [done|]. intros ([|b pre] & post & Hpost);
        cbv [String.append] in Hpost; fold String.append in Hpost; [|done].
      assert (String.prefix sub EmptyString = true)
        by (apply prefix_app; eauto).
      congruence.
  - destruct (String.prefix sub (String a s)) eqn:Hp.
    + split; [|done]. intros _. apply prefix_app in Hp as (post & Hpost).
      by exists EmptyString, post.
    + rewrite IH. split.
      * intros (pre & post & ->). by exists (String a pre), post.
      * intros ([|b pre] & post & Hpost);
          cbv [String.append] in Hpost; fold String.append in Hpost.
        -- assert (String.prefix sub (String a s) = true)
             by (apply prefix_app; eauto).
           congruence.
        -- injection Hpost as -> ->. by exists pre, post.
Qed.

Lemma includes_empty s : AdminDashboard.includes s EmptyString = true.
Proof. apply includes_app. by exists EmptyString, s. Qed.

(** X17. The search box of the dashboard keeps the rows whose username,
    lower-cased, contains the lower-cased search text somewhere, in the
    order of the table; an empty search keeps every row. *)
Theorem X17_dashboard_search (users : list AdminDashboard.UserStat) search :
  AdminDashboard.filteredUsers users EmptyString = users
  ∧ AdminDashboard.filteredUsers users search `sublist_of` users
  ∧ ∀ row, row ∈ AdminDashboard.filteredUsers users search ↔
      row ∈ users
      ∧ ∃ pre post,
          JsString.toLowerCase (User.username (AdminDashboard.user row))
          = String.append pre
              (String.append (JsString.toLowerCase search) post).
Proof.
  unfold AdminDashboard.filteredUsers. split; [|split].
  - rewrite toLowerCase_empty.
    induction users as [|row users IH]; [done|].
    rewrite filter_cons_True by apply includes_empty. by rewrite IH.
  - apply sublist_filter.
  - intros row. rewrite list_elem_of_filter, includes_app. tauto.
Qed.

End AdminExtras.

(** The scenarios of the section above, on ASCII names and words. *)

Section AdminExtrasScenarios.

Import StorageService.
Implicit Types (ls : gmap string Stored) (u : User.t).

#[local] Existing Instance ascii_folding.

(** X17 for the search "BO", which keeps the row of "bob". *)
Lemma X17_witness :
  AdminDashboard.stat_of StoreScenario.after_bob StoreScenario.bob
  ∈ AdminDashboard.filteredUsers
      (AdminDashboard.loadUsers StoreScenario.after_bob) "BO".
Proof.
  apply (proj2 (proj2 (X17_dashboard_search
                         (AdminDashboard.loadUsers StoreScenario.after_bob)
                         "BO"))).
  split; [vm_compute; apply list_elem_of_here|].
  by exists EmptyString, "b".
Defined.

(** X16 for "bob". *)
Lemma X16_witness :
  last (AdminDashboard.loadUsers StoreScenario.after_bob)
  = Some {| AdminDashboard.user := StoreScenario.bob;
            AdminDashboard.wordCount := 16;
            AdminDashboard.testCount := 0;
            AdminDashboard.lastActive := None |}.
Proof.
  apply (X16_dashboard_after_register ∅ "bob" (Some "secret")
           1700000000000 1700000000000 StoreScenario.bob
           StoreScenario.after_bob).
  vm_compute. reflexivity.
Defined.

End AdminExtrasScenarios.

(** * Further properties of the review scheduler *)

Section SchedulerExtras.

Import Scheduler.

Implicit Types (lib : WordLibrary) (res : QuizResult.t).
Implicit Types (ws : list WordPair.t) (w : WordPair.t).

Lemma content_update_word now correct w :
  content (update_word now correct w) = content w.
Proof. reflexivity. Qed.

Lemma update_category_cases now res ws :
  update_category now res ws = ws
  ∨ ∃ idx w, findIndex (QuizResult.wordId res) ws = Some idx
             ∧ ws !! idx = Some w
             ∧ update_category now res ws
               = <[idx := update_word now (QuizResult.isCorrect res) w]> ws.
Proof.
  unfold update_category.
  destruct (findIndex (QuizResult.wordId res) ws) as [idx|] eqn:Hf; [|by left].
  destruct (ws !! idx) as [w|] eqn:Hw; [|by left].
  right. by exists idx, w.
Qed.

Lemma update_category_content now res ws :
  content <$> update_category now res ws = content <$> ws.
Proof.
  destruct (update_category_cases now res ws)
    as [-> | (idx & w & _ & Hw & ->)]; [done|].
  rewrite list_fmap_insert, content_update_word.
  apply list_insert_id. by rewrite list_lookup_fmap, Hw.
Qed.

Lemma process_result_contents now lib res :
  contents (process_result now lib res) = contents lib.
Proof.
  unfold contents, process_result. rewrite <- list_fmap_compose.
  apply list_fmap_ext. intros _ [cat ws] _. simpl.
  by rewrite update_category_content.
Qed.

Lemma applyResults_contents now lib results :
  contents (applyResults now lib results) = contents lib.
Proof.
  unfold applyResults. revert lib.
  induction results as [|res results IH]; intros lib; simpl; [done|].
  by rewrite IH, process_result_contents.
Qed.

Lemma contents_keys lib : (contents lib).*1 = lib.*1.
Proof.
  unfold contents. rewrite <- list_fmap_compose. by apply list_fmap_ext.
Qed.

Lemma contents_allWords lib :
  concat ((contents lib).*2) = content <$> allWords lib.
Proof.
  unfold contents, allWords. induction lib as [|[cat ws] lib IH]; [done|].
  rewrite !fmap_cons. simpl. by rewrite fmap_app, <- IH.
Qed.

(** X18. A quiz changes review data only: after [handleQuizComplete] the
    library has the same categories in the same order, and in each
    category the same words at the same positions, each with its id, its
    two texts and its category label. *)
Theorem X18_quiz_keeps_words now now_id lib history results :
  contents (handleQuizComplete now now_id lib history results).1
  = contents lib
  ∧ (handleQuizComplete now now_id lib history results).1.*1 = lib.*1
  ∧ content <$> allWords (handleQuizComplete now now_id lib history results).1
    = content <$> allWords lib
  ∧ length (allWords (handleQuizComplete now now_id lib history results).1)
    = length (allWords lib).
Proof.
  simpl. pose proof (applyResults_contents now lib results) as Hc.
  split; [done|]. split.
  { by rewrite <- contents_keys, Hc, contents_keys. }
  assert (Hw : content <$> allWords (applyResults now lib results)
               = content <$> allWords lib).
  { by rewrite <- !contents_allWords, Hc. }
  split; [done|].
  apply (f_equal length) in Hw. by rewrite !length_fmap in Hw.
Qed.

Lemma srs_in_range_update_word now correct w :
  srs_in_range w → srs_in_range (update_word now correct w).
Proof.
  unfold srs_in_range, update_word. simpl. intros [Hi Hp].
  destruct correct; simpl.
  - destruct (JsNumber.or_zero (WordPair.reviewInterval w) =? 0); lia.
  - lia.
Qed.

Lemma Forall_allWords (P : WordPair.t → Prop) lib :
  Forall P (allWords lib) ↔ Forall (λ entry, Forall P entry.2) lib.
Proof.
  unfold allWords. induction lib as [|[cat ws] lib IH]; simpl.
  - split; constructor.
  - rewrite Forall_app, Forall_cons, IH. done.
Qed.

Lemma process_result_Forall (P : WordPair.t → Prop) now lib res :
  (∀ w, P w → P (update_word now (QuizResult.isCorrect res) w)) →
  Forall P (allWords lib) → Forall P (allWords (process_result now lib res)).
Proof.
  intros Hstep. rewrite !Forall_allWords. unfold process_result.
  intros Hlib. apply Forall_fmap. eapply Forall_impl; [exact Hlib|].
  intros [cat ws] Hws. simpl in *.
  destruct (update_category_cases now res ws)
    as [-> | (idx & w & _ & Hw & ->)]; [done|].
  apply Forall_insert; [done|]. apply Hstep.
  by eapply (proj1 (Forall_lookup _ _) Hws).
Qed.

(** X19. A quiz keeps the ranges of the review data: when every word of
    the library has an interval that is not negative and a proficiency
    from 0 to 5, so has every word after [handleQuizComplete]. *)
Theorem X19_quiz_keeps_ranges now now_id lib history results :
  Forall srs_in_range (allWords lib) →
  Forall srs_in_range
    (allWords (handleQuizComplete now now_id lib history results).1).
Proof.
  simpl. unfold applyResults. revert lib.
  induction results as [|res results IH]; intros lib Hlib; simpl; [done|].
  apply IH. apply process_result_Forall; [|done].
  intros w. apply srs_in_range_update_word.
Qed.

(** X19 for the starter library and a wrong answer to "def-1". *)
Lemma X19_witness :
  Forall srs_in_range
    (allWords (handleQuizComplete 1000 1001 StorageService.DEFAULT_LIBRARY []
                 [ {| QuizResult.wordId := "def-1";
                      QuizResult.isCorrect := false;
                      QuizResult.userAnswer := "Aple";
                      QuizResult.correctAnswer := "Apple";
                      QuizResult.timestamp := 999 |} ]).1).
Proof.
  apply X19_quiz_keeps_ranges.
  repeat (apply Forall_cons; split; [vm_compute; intuition discriminate|]).
  apply Forall_nil_2.
Defined.

Lemma length_filter_split {A} (P : A → bool) (l : list A) :
  (length (filter (λ x, P x = true) l) + length (filter (λ x, P x = false) l)
   = length l)%nat.
Proof.
  induction l as [|x l IH]; [done|].
  destruct (P x) eqn:Hx.
  - rewrite filter_cons_True, filter_cons_False by congruence. simpl. lia.
  - rewrite filter_cons_False, filter_cons_True by congruence. simpl. lia.
Qed.

(** X20. [handleQuizComplete] appends one record to the history and
    leaves the earlier records.  The record is dated at the time of the
    quiz, counts all results, lists one wrong word for each incorrect
    result, so that total minus wrong words is the number of correct
    answers, and never shows a blank answer: a blank one is written
    'Empty'. *)
Theorem X20_quiz_record now now_id lib history results :
  ∃ record,
    (handleQuizComplete now now_id lib history results).2
    = history ++ [record]
    ∧ TestRecord.date record = now
    ∧ TestRecord.total record = Z.of_nat (length results)
    ∧ TestRecord.total record
      - Z.of_nat (length (TestRecord.wrongWords record))
      = correctCount results
    ∧ TestRecord.wrongWords record
      = (λ r, {| WrongWord.english := QuizResult.correctAnswer r;
                 WrongWord.chinese :=
                   if decide (QuizResult.userAnswer r = EmptyString)
                   then "Empty" else QuizResult.userAnswer r |})
        <$> filter (λ r, QuizResult.isCorrect r = false) results
    ∧ Forall (λ ww, WrongWord.chinese ww ≠ EmptyString)
             (TestRecord.wrongWords record).
Proof.
  exists (make_record now now_id results).
  rewrite make_record_wrongWords. simpl.
  split; [done|]. split; [done|]. split; [done|]. split.
  { unfold collect_wrongWords, correctCount. rewrite length_map.
    pose proof (length_filter_split QuizResult.isCorrect results). lia. }
  assert (Hww : ∀ r, JsString.or_default (QuizResult.userAnswer r) "Empty"
            = if decide (QuizResult.userAnswer r = EmptyString)
              then "Empty" else QuizResult.userAnswer r).
  { intros r. unfold JsString.or_default, JsString.truthy, JsString.eqb.
    by destruct (decide (QuizResult.userAnswer r = EmptyString));
      [rewrite bool_decide_eq_true_2|rewrite bool_decide_eq_false_2]. }
  split.
  - unfold collect_wrongWords.
    apply list_fmap_ext. intros _ r _. by rewrite Hww.
  - unfold collect_wrongWords. apply Forall_fmap, Forall_forall.
    intros r _. simpl. rewrite Hww. by case_decide.
Qed.

Lemma elem_of_allWords_lookup lib k cat ws idx w :
  lib !! k = Some (cat, ws) → ws !! idx = Some w → w ∈ allWords lib.
Proof. intros Hk Hidx. apply elem_of_allWords. eauto 6. Qed.

(** X21. The next review of a rewritten entry.  After a result handled
    at time [now] (a real clock reading, not 0), the rewritten entry is
    in the library and is due exactly from [now] plus its new interval in
    days: at once after an incorrect answer, after one day or twice the
    previous interval after a correct one. *)
Theorem X21_next_review now now_id lib history earlier res k cat ws idx w t :
  now ≠ 0 →
  applyResults now lib earlier !! k = Some (cat, ws) →
  findIndex (QuizResult.wordId res) ws = Some idx →
  ws !! idx = Some w →
  let lib' := (handleQuizComplete now now_id lib history (earlier ++ [res])).1 in
  let w' := update_word now (QuizResult.isCorrect res) w in
  let days :=
    if QuizResult.isCorrect res
    then (if JsNumber.or_zero (WordPair.reviewInterval w) =? 0 then 1
          else 2 * JsNumber.or_zero (WordPair.reviewInterval w))
    else 0 in
  w' ∈ allWords lib'
  ∧ (w' ∈ getDueWords t lib' ↔ now + days * 86400000 ≤ t).
Proof.
  intros Hnow Hk Hf Hw lib' w' days.
  destruct (handleQuizComplete_last now now_id lib history earlier res
              k cat ws idx w Hk Hf Hw) as (ws' & Hlib & Hidx & _).
  assert (Hin : w' ∈ allWords lib')
    by (by eapply elem_of_allWords_lookup).
  split; [done|].
  rewrite elem_of_getDueWords, is_due_spec.
  assert (Hdays : JsNumber.or_zero (WordPair.reviewInterval w') = days).
  { unfold w', days, update_word. simpl.
    destruct (QuizResult.isCorrect res); [|done].
    destruct (JsNumber.or_zero (WordPair.reviewInterval w) =? 0); simpl; lia. }
  rewrite Hdays. unfold w' at 2 3 4. simpl. split.
  - intros [_ [H|[H|(t' & [= <-] & Hle)]]]; [done|congruence|done].
  - intros Hle. split; [done|]. right. right. by exists now.
Qed.

(** X21 for [w1] answered wrongly at time 1000: due at once. *)
Lemma X21_witness :
  update_word 1000 false Scenario.w1
  ∈ getDueWords 1000
      (handleQuizComplete 1000 1001 (Scenario.library_of Scenario.w1) []
         ([] ++ [Scenario.answer false])).1.
Proof.
  apply (proj2 (X21_next_review 1000 1001 (Scenario.library_of Scenario.w1)
                  [] [] (Scenario.answer false) 1%nat "Food" [Scenario.w1]
                  0%nat Scenario.w1 1000 ltac:(discriminate) eq_refl eq_refl
                  eq_refl)).
  reflexivity.
Defined.

Lemma is_due_mono now now' w :
  now ≤ now' → is_due now w = true → is_due now' w = true.
Proof.
  rewrite !is_due_spec. intros Hle [H|[H|(t & Ht & Hdue)]]; [auto|auto|].
  right. right. exists t. split; [done|]. lia.
Qed.

(** X22. A word that was never reviewed is always due: a library whose
    words have no review date, such as the starter library of a new
    user, is due as a whole, in the order of its categories. *)
Theorem X22_unreviewed_words_are_due now lib :
  (∀ w, w ∈ allWords lib → WordPair.lastReviewed w = None) →
  getDueWords now lib = allWords lib.
Proof.
  unfold getDueWords. intros Hnone.
  induction (allWords lib) as [|w l IH]; [done|].
  rewrite filter_cons_True.
  - rewrite IH; [done|]. intros v Hv. apply Hnone. by apply list_elem_of_further.
  - apply is_due_spec. left. apply Hnone. apply list_elem_of_here.
Qed.

(** X22 for the starter library. *)
Lemma X22_witness :
  getDueWords 1700000000000 StorageService.DEFAULT_LIBRARY
  = allWords StorageService.DEFAULT_LIBRARY.
Proof.
  apply X22_unreviewed_words_are_due.
  intros w Hw. vm_compute in Hw.
  repeat (apply elem_of_cons in Hw as [-> | Hw]; [reflexivity|]).
  by apply not_elem_of_nil in Hw.
Defined.

(** X23. A due word stays due: the words due at a time are due at every
    later time, as long as the library is not changed, and the due words
    are words of the library in the order of its categories. *)
Theorem X23_due_words_grow now now' lib :
  now ≤ now' →
  getDueWords now lib `sublist_of` getDueWords now' lib
  ∧ getDueWords now lib `sublist_of` allWords lib.
Proof.
  intros Hle. unfold getDueWords. split; [|apply sublist_filter].
  induction (allWords lib) as [|w l IH]; [done|].
  rewrite !filter_cons. destruct (decide (is_due now w = true)) as [Hd|Hd].
  - rewrite decide_True by (by eapply is_due_mono). by apply sublist_skip.
  - case_decide; [by apply sublist_cons|done].
Qed.

(** X23 one day apart on the library of [w1] reviewed at time 1000. *)
Lemma X23_witness :
  getDueWords 1000 (Scenario.library_of (Scenario.w1_at 1000 1 1))
    `sublist_of`
  getDueWords 86401000 (Scenario.library_of (Scenario.w1_at 1000 1 1)).
Proof.
  apply (X23_due_words_grow 1000 86401000
           (Scenario.library_of (Scenario.w1_at 1000 1 1))).
  discriminate.
Defined.

(** X24. A review session.  When no word is due the active words are
    kept.  Otherwise the session is made of due words, at most 20 of
    them, and of all the due words when there are at most 20; [shuffled]
    is the order in which the random sort leaves the due words. *)
Theorem X24_review_session now lib shuffled activeWords :
  shuffled ≡ₚ getDueWords now lib →
  let session :=
    SetupScreen.handleLoadReview now lib shuffled activeWords in
  (getDueWords now lib = [] → session = activeWords)
  ∧ (getDueWords now lib ≠ [] →
     length session = Nat.min 20 (length (getDueWords now lib))
     ∧ (∀ w, w ∈ session → w ∈ allWords lib ∧ is_due now w = true)
     ∧ ((length (getDueWords now lib) ≤ 20)%nat →
        session ≡ₚ getDueWords now lib)).
Proof.
  intros Hperm session. unfold session, SetupScreen.handleLoadReview.
  split.
  - by intros ->.
  - intros Hne.
    destruct (getDueWords now lib) as [|d due] eqn:Hdue; [done|].
    simpl length at 1. simpl Nat.eqb. cbv iota.
    split; [|split].
    + rewrite length_take. by rewrite (Permutation_length Hperm).
    + intros w Hw%(subseteq_take 20). rewrite Hperm, <- Hdue in Hw.
      by apply elem_of_getDueWords in Hw.
    + intros Hlen. rewrite firstn_all2; [done|].
      rewrite (Permutation_length Hperm). exact Hlen.
Qed.

(** X24 for the starter library, whose 16 words are all due, taken in
    their own order. *)
Lemma X24_witness :
  length
    (SetupScreen.handleLoadReview 1700000000000
       StorageService.DEFAULT_LIBRARY
       (getDueWords 1700000000000 StorageService.DEFAULT_LIBRARY) [])
  = 16%nat.
Proof.
  destruct (X24_review_session 1700000000000 StorageService.DEFAULT_LIBRARY
              (getDueWords 1700000000000 StorageService.DEFAULT_LIBRARY) [])
    as [_ Hsome]; [reflexivity|].
  destruct Hsome as [Hlen _]; [discriminate|].
  exact Hlen.
Defined.

Lemma findIndex_insert_same_id wid ws idx w' :
  findIndex wid ws = Some idx →
  WordPair.id w' = wid →
  findIndex wid (<[idx := w']> ws) = Some idx.
Proof.
  intros (w & Hw & Hid & Hfirst)%findIndex_Some Hid'.
  apply findIndex_Some. exists w'. split.
  - apply list_lookup_insert_eq. by eapply lookup_lt_Some.
  - split; [done|]. intros j y Hj Hlt.
    rewrite list_lookup_insert_ne in Hj by lia. by eapply Hfirst.
Qed.

(** X25. No copy is left behind: the loop over the categories does not
    stop at the first match, so after a result every category that holds
    the id of the result has its first entry with that id reviewed at the
    time of the quiz; a word saved in two categories is rewritten in
    both. *)
Theorem X25_every_category_is_updated now lib res k cat ws idx :
  process_result now lib res !! k = Some (cat, ws) →
  findIndex (QuizResult.wordId res) ws = Some idx →
  ∃ ws0 w0,
    lib !! k = Some (cat, ws0)
    ∧ ws0 !! idx = Some w0
    ∧ findIndex (QuizResult.wordId res) ws0 = Some idx
    ∧ ws !! idx = Some (update_word now (QuizResult.isCorrect res) w0).
Proof.
  rewrite process_result_lookup. intros Hk Hf.
  destruct (lib !! k) as [[cat0 ws0]|] eqn:Hlib; [|done].
  simpl in Hk. injection Hk as -> <-.
  destruct (findIndex (QuizResult.wordId res) ws0) as [i|] eqn:Hf0.
  - pose proof Hf0 as (w0 & Hw0 & Hid & _)%findIndex_Some.
    rewrite (update_category_found _ _ _ _ _ Hf0 Hw0) in Hf |- *.
    rewrite (findIndex_insert_same_id _ _ _ _ Hf0) in Hf by done.
    injection Hf as <-. exists ws0, w0. split; [done|]. split; [done|].
    split; [done|]. apply list_lookup_insert_eq. by eapply lookup_lt_Some.
  - rewrite update_category_not_found in Hf by (by apply findIndex_None).
    congruence.
Qed.

(** X25 for a word saved in two categories. *)
Lemma X25_witness :
  ∃ ws0 w0,
    [("Food", [Scenario.w1]); ("Fruit", [Scenario.w1])] !! 1%nat
    = Some ("Fruit", ws0)
    ∧ ws0 !! 0%nat = Some w0
    ∧ findIndex (QuizResult.wordId (Scenario.answer true)) ws0 = Some 0%nat
    ∧ [Scenario.w1_at 1000 1 1] !! 0%nat
      = Some (update_word 1000 (QuizResult.isCorrect (Scenario.answer true))
                w0).
Proof.
  apply (X25_every_category_is_updated 1000
           [("Food", [Scenario.w1]); ("Fruit", [Scenario.w1])]
           (Scenario.answer true) 1%nat "Fruit"
           [Scenario.w1_at 1000 1 1] 0%nat);
    reflexivity.
Defined.

Lemma fold_update_word_content (times : list Z) correct w :
  content (fold_left (λ w t, update_word t correct w) times w) = content w.
Proof.
  revert w. induction times as [|t times IH]; intros w; simpl; [done|].
  by rewrite IH.
Qed.

(** A streak of correct answers on one word. *)
Lemma fold_update_word_correct (times : list Z) w :
  times ≠ [] →
  let n := Z.of_nat (length times) in
  let i := JsNumber.or_zero (WordPair.reviewInterval w) in
  let w' := fold_left (λ w t, update_word t true w) times w in
  WordPair.reviewInterval w'
  = Some (if i =? 0 then 2 ^ (n - 1) else i * 2 ^ n)
  ∧ WordPair.proficiency w'
    = Some (Z.min (JsNumber.or_zero (WordPair.proficiency w) + n) 5)
  ∧ WordPair.lastReviewed w' = last times.
Proof.
  induction times as [|t ts IH] using rev_ind; [done|]. intros _.
  rewrite length_app, fold_left_app, last_snoc.
  destruct ts as [|t0 ts0].
  - simpl. by split.
  - destruct IH as (Hi & Hp & _); [done|].
    remember (fold_left (λ w t, update_word t true w) (t0 :: ts0) w) as w0
      eqn:Hw0.
    remember (Z.of_nat (length (t0 :: ts0))) as m eqn:Hm.
    assert (Hm1 : 1 ≤ m) by (subst m; simpl length; lia).
    replace (Z.of_nat (length (t0 :: ts0) + length [t])) with (m + 1)
      by (subst m; simpl length; lia).
    simpl. rewrite Hi, Hp. simpl.
    split; [|split; [f_equal; lia|done]]. f_equal.
    destruct (Z.eqb_spec (JsNumber.or_zero (WordPair.reviewInterval w)) 0)
      as [Hz|Hz].
    + assert (0 < 2 ^ (m - 1)) by (apply Z.pow_pos_nonneg; lia).
      destruct (Z.eqb_spec (2 ^ (m - 1)) 0); [lia|].
      replace (m + 1 - 1) with (Z.succ (m - 1)) by lia.
      rewrite Z.pow_succ_r by lia. lia.
    + assert (0 < 2 ^ m) by (apply Z.pow_pos_nonneg; lia).
      destruct (Z.eqb_spec
                  (JsNumber.or_zero (WordPair.reviewInterval w) * 2 ^ m) 0)
        as [Hz'|_]; [nia|].
      rewrite Z.pow_add_r by lia. lia.
Qed.

(** X26. A streak: a word answered correctly in each of [n] quizzes in
    a row, [n >= 1], ends with interval [2^(n-1)] when it started at 0,
    and [2^n] times its interval otherwise; its proficiency is the
    starting one plus [n], capped at 5, and its review date is the time
    of the last quiz.  The word starts within the ranges of the data
    model, and the final interval is below [2^1024], the bound of the
    numbers of the program: below it no cap stops the interval. *)
Theorem X26_streak_of_correct_answers (times : list Z) lib res k cat ws idx w :
  times ≠ [] →
  QuizResult.isCorrect res = true →
  lib !! k = Some (cat, ws) →
  findIndex (QuizResult.wordId res) ws = Some idx →
  ws !! idx = Some w →
  srs_in_range w →
  let n := Z.of_nat (length times) in
  let i := JsNumber.or_zero (WordPair.reviewInterval w) in
  (if i =? 0 then 2 ^ (n - 1) else i * 2 ^ n) < 2 ^ 1024 →
  ∃ w',
    fold_left (λ lib t, (handleQuizComplete t t lib [] [res]).1) times lib !! k
    = Some (cat, <[idx := w']> ws)
    ∧ WordPair.reviewInterval w'
      = Some (if i =? 0 then 2 ^ (n - 1) else i * 2 ^ n)
    ∧ WordPair.proficiency w'
      = Some (Z.min (JsNumber.or_zero (WordPair.proficiency w) + n) 5)
    ∧ WordPair.lastReviewed w' = last times.
Proof.
  intros Hne Hok Hk Hf Hw Hrange n i Hbound.
  exists (fold_left (λ w t, update_word t true w) times w).
  split; [|by apply fold_update_word_correct].
  clear Hne n i Hbound. induction times as [|t ts IH] using rev_ind.
  - simpl. rewrite Hk. by rewrite list_insert_id.
  - rewrite !fold_left_app. cbn [fold_left].
    change (handleQuizComplete t t ?l [] [res]).1
      with (process_result t l res).
    rewrite (process_result_located t _ res k cat _ idx
               (fold_left (λ w t, update_word t true w) ts w) IH).
    + by rewrite list_insert_insert_eq, Hok.
    + apply findIndex_insert_same_id; [done|].
      pose proof (fold_update_word_content ts true w) as Hc.
      apply findIndex_Some in Hf as (w0 & Hw0 & Hid & _).
      rewrite Hw in Hw0. injection Hw0 as <-.
      unfold content in Hc. by injection Hc as -> _ _ _.
    + apply list_lookup_insert_eq. by eapply lookup_lt_Some.
Qed.

(** X26 for [w1] over ten quizzes: interval 512, proficiency 5. *)
Lemma X26_witness :
  ∃ w',
    fold_left
      (λ lib t, (handleQuizComplete t t lib [] [Scenario.answer true]).1)
      [1; 2; 3; 4; 5; 6; 7; 8; 9; 10] (Scenario.library_of Scenario.w1)
      !! 1%nat
    = Some ("Food", <[0%nat := w']> [Scenario.w1])
    ∧ WordPair.reviewInterval w' = Some 512
    ∧ WordPair.proficiency w' = Some 5
    ∧ WordPair.lastReviewed w' = Some 10.
Proof.
  apply (X26_streak_of_correct_answers [1; 2; 3; 4; 5; 6; 7; 8; 9; 10]
           (Scenario.library_of Scenario.w1) (Scenario.answer true)
           1%nat "Food" [Scenario.w1] 0%nat Scenario.w1);
    [discriminate|reflexivity|reflexivity|reflexivity|reflexivity
    |by vm_compute|reflexivity].
Defined.

End SchedulerExtras.

(** * Properties of the objects used as maps *)

Section ObjectFacts.

Context {A : Type}.

Implicit Types (o : list (string * A)) (k : string) (v : A).

Lemma get_own_replace o k v k' :
  JsObject.get_own (JsObject.replace o k v) k'
  = if decide (k' = k) then (λ _, v) <$> JsObject.get_own o k
    else JsObject.get_own o k'.
Proof.
  induction o as [|[k0 v0] o IH]; simpl; [by case_decide|].
  destruct (decide (k0 = k)) as [->|Hk0]; simpl;
    destruct (decide (k' = k)) as [->|Hk']; simpl.
  - by rewrite decide_True.
  - by rewrite !decide_False by congruence.
  - by rewrite decide_False by done.
  - destruct (decide (k0 = k')) as [->|Hne]; [done|].
    rewrite IH. by rewrite ?decide_False by done.
Qed.

Lemma get_own_cons_new o k v k' :
  JsObject.get_own ((k, v) :: o) k'
  = if decide (k' = k) then Some v else JsObject.get_own o k'.
Proof.
  simpl. destruct (decide (k' = k)) as [->|Hk'].
  - by rewrite decide_True.
  - by rewrite decide_False by congruence.
Qed.

Lemma get_own_insert_index o n k v k' :
  JsObject.get_own o k = None →
  JsObject.get_own (JsObject.insert_index o n k v) k'
  = if decide (k' = k) then Some v else JsObject.get_own o k'.
Proof.
  induction o as [|[k0 v0] o IH]; intros Hnone.
  - apply get_own_cons_new.
  - simpl in Hnone. destruct (decide (k0 = k)) as [->|Hk0]; [done|].
    cbn [JsObject.insert_index].
    destruct (JsObject.array_index k0) as [m|]; [|apply get_own_cons_new].
    destruct (m <? n)%N; [|apply get_own_cons_new].
    simpl. destruct (decide (k0 = k')) as [->|Hne'].
    + by rewrite decide_False.
    + by apply IH.
Qed.

Lemma get_own_app o k v k' :
  JsObject.get_own o k = None →
  JsObject.get_own (o ++ [(k, v)]) k'
  = if decide (k' = k) then Some v else JsObject.get_own o k'.
Proof.
  induction o as [|[k0 v0] o IH]; intros Hnone.
  - apply get_own_cons_new.
  - simpl in Hnone |- *. destruct (decide (k0 = k)) as [->|Hk0]; [done|].
    destruct (decide (k0 = k')) as [->|Hne'].
    + by rewrite decide_False.
    + by apply IH.
Qed.

(** A property set is the one read back; the others are untouched. *)
Lemma get_own_set o k v k' :
  JsObject.get_own (JsObject.set o k v) k'
  = if decide (k' = k) then Some v else JsObject.get_own o k'.
Proof.
  unfold JsObject.set. destruct (JsObject.get_own o k) as [v0|] eqn:Hown.
  - rewrite get_own_replace, Hown. done.
  - destruct (JsObject.array_index k);
      [by apply get_own_insert_index|by apply get_own_app].
Qed.

(** A property deleted is gone; the others are untouched. *)
Lemma get_own_delete o k k' :
  JsObject.get_own (JsObject.delete o k) k'
  = if decide (k' = k) then None else JsObject.get_own o k'.
Proof.
  unfold JsObject.delete. induction o as [|[k0 v0] o IH]; simpl.
  - by case_decide.
  - rewrite filter_cons. simpl. destruct (decide (k0 ≠ k)) as [Hk0|Hk0].
    + simpl. destruct (decide (k0 = k')) as [->|Hne'].
      * by rewrite decide_False.
      * exact IH.
    + apply dec_stable in Hk0. subst k0.
      destruct (decide (k = k')) as [->|Hne'].
      * rewrite IH. by rewrite !decide_True.
      * rewrite IH. by rewrite decide_False by done.
Qed.

Lemma get_own_elem_of o k v :
  JsObject.get_own o k = Some v → (k, v) ∈ o.
Proof.
  induction o as [|[k0 v0] o IH]; simpl; [done|].
  destruct (decide (k0 = k)) as [->|Hne].
  - intros [= ->]. apply list_elem_of_here.
  - intros H. by apply list_elem_of_further, IH.
Qed.

(** The properties after a write are the written one and old ones. *)
Lemma elem_of_set o k v entry :
  entry ∈ JsObject.set o k v → entry = (k, v) ∨ entry ∈ o.
Proof.
  unfold JsObject.set. destruct (JsObject.get_own o k) as [v0|]; [|].
  - induction o as [|[k0 v0'] o IH]; simpl; [by right|].
    destruct (decide (k0 = k)) as [->|Hne].
    + intros [->|H]%elem_of_cons; [by left|].
      right. by apply list_elem_of_further.
    + intros [->|H]%elem_of_cons; [right; apply list_elem_of_here|].
      destruct (IH H) as [->|Hin]; [by left|].
      right. by apply list_elem_of_further.
  - destruct (JsObject.array_index k) as [n|].
    + induction o as [|[k0 v0'] o IH]; simpl.
      * intros ->%list_elem_of_singleton. by left.
      * destruct (JsObject.array_index k0) as [m|];
          [destruct (m <? n)%N|].
        -- intros [->|H]%elem_of_cons; [right; apply list_elem_of_here|].
           destruct (IH H) as [->|Hin]; [by left|].
           right. by apply list_elem_of_further.
        -- intros [->|H]%elem_of_cons; [by left|by right].
        -- intros [->|H]%elem_of_cons; [by left|by right].
    + intros [H| ->%list_elem_of_singleton]%elem_of_app; [by right|by left].
Qed.

Lemma elem_of_delete o k entry :
  entry ∈ JsObject.delete o k → entry ∈ o.
Proof. unfold JsObject.delete. rewrite list_elem_of_filter. tauto. Qed.

Lemma get_Undefined_own o k :
  JsObject.get o k = JsObject.Undefined → JsObject.get_own o k = None.
Proof.
  unfold JsObject.get. by destruct (JsObject.get_own o k).
Qed.

End ObjectFacts.

(** * Properties of the library handlers *)

Section LibraryExtras.

Implicit Types (lib prev : WordLibrary) (w word : WordPair.t).

Context {folding : JsString.CaseFolding}.

Lemma same_english_true word w :
  App.same_english word w = true ↔
  same_letters (WordPair.english w) (WordPair.english word).
Proof. unfold App.same_english, same_letters. apply js_eqb_true. Qed.

Lemma some_same_english word (ws : list WordPair.t) :
  existsb (App.same_english word) ws = true ↔
  ∃ w, w ∈ ws ∧ same_letters (WordPair.english w) (WordPair.english word).
Proof.
  rewrite existsb_exists. split; intros (w & Hin & Hw); exists w.
  - by rewrite list_elem_of_In, <- same_english_true.
  - by rewrite <- list_elem_of_In, same_english_true.
Qed.

Lemma none_same_english word (ws : list WordPair.t) :
  existsb (App.same_english word) ws = false ↔
  ∀ w, w ∈ ws → ¬ same_letters (WordPair.english w) (WordPair.english word).
Proof.
  rewrite <- not_true_iff_false, some_same_english. split.
  - intros H w Hin Hw. apply H. eauto.
  - intros H (w & Hin & Hw). by apply (H w).
Qed.

(** The two outcomes of [handleAddToLibrary] on a category name that is
    not inherited. *)
Lemma handleAddToLibrary_unfold word category prev :
  let target := JsString.or_default category "Uncategorized" in
  let existing := default [] (JsObject.get_own prev target) in
  JsObject.get prev target ≠ JsObject.Inherited →
  App.handleAddToLibrary word category prev
  = Some (if existsb (App.same_english word) existing then prev
          else JsObject.set prev target
                 (existing ++ [App.with_category word target])).
Proof.
  intros target existing. unfold App.handleAddToLibrary.
  fold target. unfold existing, JsObject.get.
  destruct (JsObject.get_own prev target) as [l|]; simpl.
  - intros _. by destruct (existsb _ _).
  - case_bool_decide; [done|]. intros _. done.
Qed.

Lemma handleAddToLibrary_Some word category prev lib' :
  App.handleAddToLibrary word category prev = Some lib' →
  JsObject.get prev (JsString.or_default category "Uncategorized")
  ≠ JsObject.Inherited.
Proof.
  unfold App.handleAddToLibrary. intros H Hget. by rewrite Hget in H.
Qed.

(** X27. Saving a word to the library.  For a category name that is an
    own property or is not inherited (the empty name stands for
    'Uncategorized'): when the category already holds a word with the
    same English text up to case, the library is returned as it is;
    otherwise the word, labelled with the category and keeping its id, is
    appended to the category, which is created when it did not exist,
    and no other category is touched. *)
Theorem X27_save_word_to_library word category prev :
  let target := JsString.or_default category "Uncategorized" in
  let existing := default [] (JsObject.get_own prev target) in
  JsObject.get prev target ≠ JsObject.Inherited →
  ∃ lib',
    App.handleAddToLibrary word category prev = Some lib'
    ∧ ((∃ w, w ∈ existing
             ∧ same_letters (WordPair.english w) (WordPair.english word)) →
       lib' = prev)
    ∧ ((∀ w, w ∈ existing →
             ¬ same_letters (WordPair.english w) (WordPair.english word)) →
       JsObject.get_own lib' target
       = Some (existing ++ [App.with_category word target])
       ∧ WordPair.id (App.with_category word target) = WordPair.id word
       ∧ ∀ k, k ≠ target →
              JsObject.get_own lib' k = JsObject.get_own prev k).
Proof.
  intros target existing Hget.
  rewrite (handleAddToLibrary_unfold word category prev Hget).
  fold target existing. eexists. split; [done|]. split.
  - intros H%some_same_english. by rewrite H.
  - intros H%none_same_english. rewrite H. split; [|split; [done|]].
    + rewrite get_own_set. by rewrite decide_True.
    + intros k Hk. rewrite get_own_set. by rewrite decide_False.
Qed.

(** X28. Saving the same word to the same category twice is saving it
    once, and saving keeps every category free of two words with the same
    English text up to case. *)
Theorem X28_save_word_twice word category prev lib' :
  App.handleAddToLibrary word category prev = Some lib' →
  App.handleAddToLibrary word category lib' = Some lib'
  ∧ (english_unique prev → english_unique lib').
Proof.
  intros Hadd. pose proof (handleAddToLibrary_Some _ _ _ _ Hadd) as Hget.
  rewrite (handleAddToLibrary_unfold word category prev Hget) in Hadd.
  set (target := JsString.or_default category "Uncategorized") in *.
  set (existing := default [] (JsObject.get_own prev target)) in *.
  destruct (existsb (App.same_english word) existing) eqn:Hex;
    injection Hadd as <-.
  - split; [|done].
    rewrite (handleAddToLibrary_unfold word category prev Hget).
    fold target existing. by rewrite Hex.
  - split.
    + assert (Hown : JsObject.get_own
                (JsObject.set prev target
                   (existing ++ [App.with_category word target])) target
              = Some (existing ++ [App.with_category word target])).
      { rewrite get_own_set. by rewrite decide_True. }
      rewrite handleAddToLibrary_unfold; fold target.
      * rewrite Hown. simpl. rewrite existsb_app. simpl.
        assert (App.same_english word (App.with_category word target) = true)
          as -> by (by apply same_english_true).
        by rewrite orb_true_r.
      * unfold JsObject.get. by rewrite Hown.
    + unfold english_unique. rewrite !Forall_forall.
      intros Hinv entry [-> | Hold]%elem_of_set; [|by apply Hinv]. simpl.
      rewrite fmap_app. apply NoDup_app. split; [|split].
      * unfold existing.
        destruct (JsObject.get_own prev target) as [l|] eqn:Hown;
          [|apply NoDup_nil_2].
        apply (Hinv (target, l)). by apply get_own_elem_of.
      * intros x (w & -> & Hw)%list_elem_of_fmap Hx.
        apply list_elem_of_singleton in Hx.
        by apply (proj1 (none_same_english word existing) Hex w Hw).
      * apply NoDup_singleton.
Qed.

(** X29. Renaming a category.  A blank name, the old name, and a name
    that is taken (by a category or by an inherited property) leave the
    library as it is: no category is merged or overwritten.  Otherwise
    the words of the old category are found under the new name, each
    labelled with it and otherwise unchanged, the old name is gone, and
    no other category is touched. *)
Theorem X29_rename_category lib renamingCategory renameCatName :
  (AuthScreen.blank renameCatName = true
   ∨ renameCatName = renamingCategory
   ∨ JsObject.get lib renameCatName ≠ JsObject.Undefined →
   SetupScreen.handleRenameCategory lib renamingCategory renameCatName
   = Some lib)
  ∧ (∀ ws,
       AuthScreen.blank renameCatName = false →
       renameCatName ≠ renamingCategory →
       JsObject.get lib renameCatName = JsObject.Undefined →
       JsObject.get_own lib renamingCategory = Some ws →
       ∃ lib',
         SetupScreen.handleRenameCategory lib renamingCategory renameCatName
         = Some lib'
         ∧ JsObject.get_own lib' renameCatName
           = Some ((λ w, App.with_category w renameCatName) <$> ws)
         ∧ JsObject.get_own lib' renamingCategory = None
         ∧ ∀ k, k ≠ renameCatName → k ≠ renamingCategory →
                JsObject.get_own lib' k = JsObject.get_own lib k).
Proof.
  unfold SetupScreen.handleRenameCategory. split.
  - intros [Hb | [Heq | Hget]].
    + by rewrite Hb.
    + subst. unfold JsString.eqb. rewrite bool_decide_eq_true_2 by done.
      by rewrite orb_true_r.
    + destruct (_ || _); [done|].
      by destruct (JsObject.get lib renameCatName).
  - intros ws Hb Hne Hget Hold. rewrite Hb. unfold JsString.eqb.
    rewrite bool_decide_eq_false_2 by done. simpl. rewrite Hget, Hold.
    eexists. split; [done|]. split; [|split].
    + rewrite get_own_set. by rewrite decide_True.
    + rewrite get_own_set, decide_False by congruence.
      rewrite get_own_delete. by rewrite decide_True.
    + intros k Hk1 Hk2. rewrite get_own_set, decide_False by done.
      rewrite get_own_delete, decide_False by done.
      rewrite get_own_set. by rewrite decide_False.
Qed.

(** X30. Deleting a category.  'Uncategorized' is never deleted, and a
    deletion that is not confirmed changes nothing.  A confirmed
    deletion of another category removes that category with its words
    and leaves every other category, and the order of the categories, as
    they were. *)
Theorem X30_delete_category lib cat confirmed :
  JsObject.get_own (SetupScreen.handleDeleteCategory lib cat confirmed)
    "Uncategorized"
  = JsObject.get_own lib "Uncategorized"
  ∧ (∀ k, k ≠ cat →
          JsObject.get_own (SetupScreen.handleDeleteCategory lib cat confirmed) k
          = JsObject.get_own lib k)
  ∧ SetupScreen.handleDeleteCategory lib cat confirmed `sublist_of` lib
  ∧ (confirmed = false ∨ cat = "Uncategorized" →
     SetupScreen.handleDeleteCategory lib cat confirmed = lib)
  ∧ (confirmed = true → cat ≠ "Uncategorized" →
     JsObject.get_own (SetupScreen.handleDeleteCategory lib cat confirmed) cat
     = None).
Proof.
  unfold SetupScreen.handleDeleteCategory, JsString.eqb.
  destruct (decide (cat = "Uncategorized")) as [->|Hcat].
  - rewrite bool_decide_eq_true_2 by done. simpl.
    split; [done|]. split; [done|]. split; [done|]. split; done.
  - rewrite bool_decide_eq_false_2 by done. destruct confirmed; simpl.
    + split; [by rewrite get_own_delete, decide_False by congruence|].
      split.
      { intros k Hk. by rewrite get_own_delete, decide_False. }
      split; [apply sublist_filter|]. split.
      * by intros [?|?].
      * intros _ _. rewrite get_own_delete. by rewrite decide_True.
    + split; [done|]. split; [done|]. split; [done|]. split; done.
Qed.

End LibraryExtras.

(** The scenarios of the section above, on ASCII names and words. *)

Section LibraryExtrasScenarios.

Implicit Types (lib prev : WordLibrary) (w word : WordPair.t).

#[local] Existing Instance ascii_folding.

(** X27 for a new word saved to the category "Food" of the starter
    library. *)
Lemma X27_witness :
  ∃ lib',
    App.handleAddToLibrary (StorageService.word "9" "Pear" "梨" "Fruit") "Food"
      StorageService.DEFAULT_LIBRARY
    = Some lib'
    ∧ length <$> JsObject.get_own lib' "Food" = Some 6%nat.
Proof.
  destruct (X27_save_word_to_library
              (StorageService.word "9" "Pear" "梨" "Fruit") "Food"
              StorageService.DEFAULT_LIBRARY)
    as (lib' & Hadd & _ & Hnew); [discriminate|].
  exists lib'. split; [exact Hadd|].
  destruct Hnew as [Hfood _].
  - intros w Hw. vm_compute in Hw.
    repeat (apply elem_of_cons in Hw as [-> | Hw]; [discriminate|]).
    by apply not_elem_of_nil in Hw.
  - exact (f_equal (fmap length) Hfood).
Defined.

(** X28 for "apple" saved to "Food", where "Apple" already is. *)
Lemma X28_witness :
  App.handleAddToLibrary (StorageService.word "9" "apple" "苹果" "Food") "Food"
    StorageService.DEFAULT_LIBRARY
  = Some StorageService.DEFAULT_LIBRARY.
Proof.
  apply (X28_save_word_twice (StorageService.word "9" "apple" "苹果" "Food")
           "Food" StorageService.DEFAULT_LIBRARY
           StorageService.DEFAULT_LIBRARY).
  reflexivity.
Defined.

(** X29 for "Food" renamed "Meals" in the starter library; the
    ideographic space U+3000 alone is a blank name. *)
Lemma X29_witness :
  (∃ lib',
     SetupScreen.handleRenameCategory StorageService.DEFAULT_LIBRARY
       "Food" "Meals"
     = Some lib'
     ∧ length <$> JsObject.get_own lib' "Meals" = Some 5%nat
     ∧ JsObject.get_own lib' "Food" = None)
  ∧ SetupScreen.handleRenameCategory StorageService.DEFAULT_LIBRARY
      "Food" "　"
    = Some StorageService.DEFAULT_LIBRARY.
Proof.
  split;
    [|apply (proj1 (X29_rename_category StorageService.DEFAULT_LIBRARY
                      "Food" "　")); by left].
  destruct (proj2 (X29_rename_category StorageService.DEFAULT_LIBRARY
                     "Food" "Meals")
              (default [] (JsObject.get_own StorageService.DEFAULT_LIBRARY
                             "Food")))
    as (lib' & Hren & Hnew & Hold & _); try reflexivity; [discriminate|].
  exists lib'. split; [exact Hren|]. split; [|exact Hold].
  exact (f_equal (fmap length) Hnew).
Defined.

End LibraryExtrasScenarios.
